(** * boostFile: Lorentz boost of the MCParticle records of LCIO files

    Shallow embedding of [src/cpp/src/EXAMPLE/boostFile.cc] and the
    properties its specification states about it.

    Conventions.
    - A C++ [double] is an element of [R]: arithmetic is exact, IEEE-754
      rounding, infinities and NaN are not represented. The module
      [Binary64] repeats the formulas of the boost on IEEE-754 doubles,
      to measure what rounding does to them.
    - The function-local [static const] objects of [getBoosted], the
      files visible to the LCIO reader and writer and the sequence of I/O
      actions of the process form the [World] that every effectful function
      threads; an uncaught exception and [exit] end the run.
    - [std::filesystem::path] is its native string (POSIX, separator [/]). *)

From Stdlib Require Import Reals Lra Lia ZArith Ascii String.
From Stdlib Require PrimFloat.
From stdpp Require Import gmap strings list pretty.

(** ** ROOT::Math GenVector: four-vectors and boosts *)

Module GenVector.
Local Open Scope R_scope.

(** [ROOT::Math::PxPyPzEVector], i.e. [LorentzVector<PxPyPzE4D<double>>]. *)
Record PxPyPzEVector : Type := mkLV { Px : R; Py : R; Pz : R; E : R }.

(** [ROOT::Math::XYZVector], the type of [LorentzVector::BetaVector]. *)
Record XYZVector : Type := mkXYZ { vX : R; vY : R; vZ : R }.

(** [LorentzVector::operator+]: component-wise sum. *)
Definition add (a b : PxPyPzEVector) : PxPyPzEVector :=
  mkLV (Px a + Px b) (Py a + Py b) (Pz a + Pz b) (E a + E b).

(** [LorentzVector::Vect]: the spatial part. *)
Definition Vect (v : PxPyPzEVector) : XYZVector := mkXYZ (Px v) (Py v) (Pz v).

(** [LorentzVector::M2]: the invariant mass squared, E² − |p|². *)
Definition M2 (v : PxPyPzEVector) : R :=
  E v * E v - (Px v * Px v + Py v * Py v + Pz v * Pz v).

(** Modelled from the spec: [LorentzVector::BoostToCM] of ROOT (header
    Math/Vector4D.h, not part of src/), "the boost vector that would bring
    S to its own rest frame": the velocity β = −p/E. *)
Definition BoostToCM (v : PxPyPzEVector) : XYZVector :=
  mkXYZ (- Px v / E v) (- Py v / E v) (- Pz v / E v).

(** [ROOT::Math::Boost]: the ten independent entries of the symmetric
    4×4 matrix of a pure boost, named as ROOT's [ELorentzRotationMatrixIndex]. *)
Record Boost : Type := mkBoost {
  kXX : R; kXY : R; kXZ : R; kXT : R;
           kYY : R; kYZ : R; kYT : R;
                    kZZ : R; kZT : R;
                             kTT : R }.

(** Modelled from the spec: the constructor [Boost(const XYZVector&)] of
    ROOT (header Math/Boost.h, not part of src/), "build the boost
    transform from that vector": the Lorentz boost of velocity β, with
    γ = 1/√(1−β²) and the spatial block 1 + γ²/(1+γ)·βᵢβⱼ. *)
Definition Boost_of (beta : XYZVector) : Boost :=
  let bx := vX beta in
  let by' := vY beta in
  let bz := vZ beta in
  let bp2 := bx * bx + by' * by' + bz * bz in
  let gamma := 1 / sqrt (1 - bp2) in
  let bgamma := gamma * gamma / (1 + gamma) in
  {| kXX := 1 + bgamma * bx * bx;
     kYY := 1 + bgamma * by' * by';
     kZZ := 1 + bgamma * bz * bz;
     kXY := bgamma * bx * by';
     kXZ := bgamma * bx * bz;
     kYZ := bgamma * by' * bz;
     kXT := gamma * bx;
     kYT := gamma * by';
     kZT := gamma * bz;
     kTT := gamma |}.

(** Modelled from the spec: [Boost::Inverse] of ROOT (not part of src/),
    "then invert it": the boost of velocity −β, which changes the sign of
    the three space-time entries. *)
Definition Inverse (b : Boost) : Boost :=
  {| kXX := kXX b; kXY := kXY b; kXZ := kXZ b; kXT := - kXT b;
     kYY := kYY b; kYZ := kYZ b; kYT := - kYT b;
     kZZ := kZZ b; kZT := - kZT b;
     kTT := kTT b |}.

(** Modelled from the spec: [Boost::operator()] of ROOT (not part of
    src/), "applying the cached transform to any four-momentum": the
    product of the symmetric matrix with (x, y, z, t). *)
Definition apply (b : Boost) (v : PxPyPzEVector) : PxPyPzEVector :=
  let x := Px v in
  let y := Py v in
  let z := Pz v in
  let t := E v in
  mkLV (kXX b * x + kXY b * y + kXZ b * z + kXT b * t)
       (kXY b * x + kYY b * y + kYZ b * z + kYT b * t)
       (kXZ b * x + kYZ b * y + kZZ b * z + kZT b * t)
       (kXT b * x + kYT b * y + kZT b * z + kTT b * t).

End GenVector.

(** ** std::filesystem::path, POSIX generic format *)

Module Path.

Definition sep : ascii := "/"%char.
Definition dot : ascii := "."%char.

(** The pathname split before its filename component: the first part is
    empty or ends with the last separator, the second holds none. *)
Fixpoint split_filename (p : string) : string * string :=
  match p with
  | EmptyString => (EmptyString, EmptyString)
  | String c rest =>
      let '(d, f) := split_filename rest in
      match d with
      | String _ _ => (String c d, f)
      | EmptyString =>
          if Ascii.eqb c sep then (String c EmptyString, f)
          else (EmptyString, String c f)
      end
  end.

(** [path::filename]: what follows the last separator. *)
Definition filename (p : string) : string := snd (split_filename p).

(** [path::remove_filename]: the pathname without its filename component,
    the trailing separator kept. *)
Definition remove_filename (p : string) : string := fst (split_filename p).

(** [path::has_filename]. *)
Definition has_filename (p : string) : bool :=
  match filename p with EmptyString => false | String _ _ => true end.

(** A filename split at its rightmost period: the second part starts with
    that period, or is empty when there is none. *)
Fixpoint split_dot (f : string) : string * string :=
  match f with
  | EmptyString => (EmptyString, EmptyString)
  | String c rest =>
      let '(s, e) := split_dot rest in
      match e with
      | String _ _ => (String c s, e)
      | EmptyString =>
          if Ascii.eqb c dot then (EmptyString, String c s)
          else (String c s, EmptyString)
      end
  end.

(** Stem and extension of a filename: the extension starts at the
    rightmost period, unless the filename is dot or dot-dot or its only
    period is its first character; then the extension is empty. *)
Definition stem_extension (f : string) : string * string :=
  if String.eqb f "." || String.eqb f ".." then (f, EmptyString)
  else match split_dot f with
       | (EmptyString, _) => (f, EmptyString)
       | (s, e) => (s, e)
       end.

(** [path::stem] and [path::extension]. *)
Definition stem (p : string) : string := fst (stem_extension (filename p)).
Definition extension (p : string) : string := snd (stem_extension (filename p)).

(** [path::is_absolute]: the pathname starts with a separator. *)
Definition is_absolute (p : string) : bool :=
  match p with
  | String c _ => Ascii.eqb c sep
  | EmptyString => false
  end.

(** [path::operator/=]: an absolute right operand replaces the path;
    otherwise a separator is added when the path has a filename, and the
    operand is appended. *)
Definition append (p r : string) : string :=
  if is_absolute r then r
  else if has_filename p then p +:+ String sep r
  else p +:+ r.

(** [path::replace_filename]: [remove_filename] followed by [operator/=]. *)
Definition replace_filename (p r : string) : string :=
  append (remove_filename p) r.

(** Whether a character occurs in a string. *)
Fixpoint occurs (c : ascii) (s : string) : bool :=
  match s with
  | EmptyString => false
  | String c' rest => Ascii.eqb c c' || occurs c rest
  end.

End Path.

(** Lines 50-53 of boostFile: the name of the output file. The argument
    of [replace_filename] is evaluated on the unmodified [inpath]. *)
Definition outpath (fname : string) : string :=
  let inpath := fname in
  Path.replace_filename inpath
    (Path.stem inpath +:+ "-boosted" +:+ Path.extension inpath).

(** ** LCIO: the event data model *)

Module LCIO.

(** A [double[3]] and its subscript. *)
Definition double3 : Type := (R * R * R)%type.
Definition at3 (v : double3) (i : nat) : R :=
  match i with
  | 0 => v.1.1
  | 1 => v.1.2
  | _ => v.2
  end.

(** Modelled from the spec: [IMPL::MCParticleImpl] (declared in
    IMPL/MCParticleImpl.h, not part of src/), the particle record: its
    3-momentum and energy in GeV, and the attributes the program never
    touches, "PDG code, vertex, relations to parent/daughter particles". *)
Record MCParticleImpl : Type := mkMCParticle {
  getMomentum : double3;
  getEnergy : R;
  getPDG : Z;
  getVertex : double3;
  getParents : list nat;
  getDaughters : list nat }.

(** Modelled from the spec: [MCParticleImpl::setMomentum] (not part of
    src/), which "overwrites the 3-momentum in place". *)
Definition setMomentum (p : MCParticleImpl) (momentum : double3) : MCParticleImpl :=
  {| getMomentum := momentum;
     getEnergy := getEnergy p;
     getPDG := getPDG p;
     getVertex := getVertex p;
     getParents := getParents p;
     getDaughters := getDaughters p |}.

(** Modelled from the spec: [EVENT::LCEvent] (not part of src/), "a
    container of particle records (and other collection types the system
    does not touch)". [MCParticle] is the collection of that name, the one
    [UTIL::LCIterator] walks; it is empty when the event has none. *)
Record LCEvent : Type := mkLCEvent {
  MCParticle : list MCParticleImpl;
  otherCollections : gmap string (list Z) }.

Definition setMCParticle (evt : LCEvent) (col : list MCParticleImpl) : LCEvent :=
  {| MCParticle := col; otherCollections := otherCollections evt |}.

End LCIO.

(** ** The process: static objects, files, I/O actions *)

Import GenVector LCIO.

(** The four function-local [static const] objects of [getBoosted]; each is
    [None] until control first passes through its declaration. *)
Record Statics : Type := mkStatics {
  s_em : option PxPyPzEVector;
  s_ep : option PxPyPzEVector;
  s_com : option PxPyPzEVector;
  s_boost : option Boost }.

Definition no_statics : Statics := mkStatics None None None None.

Definition set_em (v : PxPyPzEVector) (s : Statics) : Statics :=
  mkStatics (Some v) (s_ep s) (s_com s) (s_boost s).
Definition set_ep (v : PxPyPzEVector) (s : Statics) : Statics :=
  mkStatics (s_em s) (Some v) (s_com s) (s_boost s).
Definition set_com (v : PxPyPzEVector) (s : Statics) : Statics :=
  mkStatics (s_em s) (s_ep s) (Some v) (s_boost s).
Definition set_boost (b : Boost) (s : Statics) : Statics :=
  mkStatics (s_em s) (s_ep s) (s_com s) (Some b).

(** What the process does to its environment, in order. *)
Inductive IOAction : Type :=
| Print (text : string)
| OpenRead (path : string)
| OpenWrite (path : string)
| ReadEvent (path : string)
| WriteEvent (path : string).

Definition is_file_io (a : IOAction) : bool :=
  match a with
  | Print _ => false
  | _ => true
  end.

Record World : Type := mkWorld {
  statics : Statics;
  files : gmap string (list LCEvent);
  trace : list IOAction }.

(** The state of the process when [main] is entered. *)
Definition start (fs : gmap string (list LCEvent)) : World :=
  mkWorld no_statics fs [].

Definition with_statics (w : World) (s : Statics) : World :=
  mkWorld s (files w) (trace w).
Definition with_files (w : World) (fs : gmap string (list LCEvent)) : World :=
  mkWorld (statics w) fs (trace w).
Definition log (w : World) (a : IOAction) : World :=
  mkWorld (statics w) (files w) (trace w ++ [a]).

(** The failures of the LCIO library. *)
Inductive Exception : Type :=
| IOException (what : string).

(** How a function ends: it returns, the process exits, or an exception
    leaves it. *)
Inductive Outcome (A : Type) : Type :=
| Returned (a : A) (w : World)
| Exited (status : Z) (w : World)
| Threw (e : Exception) (w : World).
Arguments Returned {A} a w.
Arguments Exited {A} status w.
Arguments Threw {A} e w.

Definition M (A : Type) : Type := World -> Outcome A.

Definition ret {A : Type} (a : A) : M A := fun w => Returned a w.

Definition bind {A B : Type} (c : M A) (k : A -> M B) : M B :=
  fun w =>
    match c w with
    | Returned a w' => k a w'
    | Exited status w' => Exited status w'
    | Threw e w' => Threw e w'
    end.

Notation "'do' x <- c ; k" := (bind c (fun x => k))
  (at level 10, x name, c at level 100, k at level 200, only parsing).
Notation "'run' c ; k" := (bind c (fun _ => k))
  (at level 10, c at level 100, k at level 200, only parsing).

Definition throw {A : Type} (e : Exception) : M A := fun w => Threw e w.
Definition exit {A : Type} (status : Z) : M A := fun w => Exited status w.
Definition perform (a : IOAction) : M unit := fun w => Returned tt (log w a).

(** [std::cout << text]. *)
Definition cout (text : string) : M unit := perform (Print text).

Definition endl : string := String (ascii_of_nat 10) EmptyString.

(** The value of the outcome, and the state it leaves. *)
Definition value {A : Type} (o : Outcome A) : option A :=
  match o with
  | Returned a _ => Some a
  | _ => None
  end.
Definition final {A : Type} (o : Outcome A) : World :=
  match o with
  | Returned _ w | Exited _ w | Threw _ w => w
  end.

(** ** LCIO: reader and writer *)

(** The reader: the file it was opened on, the number of events of that
    file and the events not yet read. The writer: the file it appends to. *)
Record LCReader : Type := mkReader {
  rd_path : string;
  rd_count : nat;
  rd_pending : list LCEvent }.
Record LCWriter : Type := mkWriter { wr_path : string }.

(** Modelled from the spec: [IO::LCReader::open] (not part of src/); a
    file that is not found is a failure of the library. *)
Definition LCReader_open (fname : string) : M LCReader :=
  run perform (OpenRead fname) ;
  fun w =>
    match files w !! fname with
    | Some evts => Returned (mkReader fname (length evts) evts) w
    | None => Threw (IOException fname) w
    end.

(** Modelled from the spec: [IO::LCReader::getNumberOfEvents]. *)
Definition getNumberOfEvents (r : LCReader) : nat := rd_count r.

(** Modelled from the spec: [IO::LCWriter::open] with [WRITE_NEW] (not
    part of src/), "requesting must-not-already-exist semantics": a
    pre-existing file at that path is a failure surfaced by the library. *)
Definition LCWriter_open_new (path : string) : M LCWriter :=
  run perform (OpenWrite path) ;
  fun w =>
    match files w !! path with
    | Some _ => Threw (IOException path) w
    | None => Returned (mkWriter path) (with_files w (<[path := []]> (files w)))
    end.

(** Modelled from the spec: [IO::LCWriter::writeEvent] (not part of
    src/): the event is appended to the output file. *)
Definition writeEvent (lcWriter : LCWriter) (evt : LCEvent) : M unit :=
  run perform (WriteEvent (wr_path lcWriter)) ;
  fun w =>
    let path := wr_path lcWriter in
    Returned tt
      (with_files w (<[path := default [] (files w !! path) ++ [evt]]> (files w))).

(** ** boostFile.cc *)

(** A function-local [static const auto x = init;]: initialised the first
    time control passes through the declaration, read afterwards. *)
Definition static_local {A : Type} (get : Statics -> option A)
    (set : A -> Statics -> Statics) (init : A) : M A :=
  fun w =>
    match get (statics w) with
    | Some v => Returned v w
    | None => Returned init (with_statics w (set init (statics w)))
    end.

(** Lines 28-41. *)
Definition getBoosted (lv : PxPyPzEVector) : M PxPyPzEVector :=
  do em <- static_local s_em set_em (mkLV 0 0 500 500) ;
  do ep <- static_local s_ep set_ep (mkLV 0 0 (-31.3) 31.3) ;
  do com <- static_local s_com set_com (add em ep) ;
  do boost <- static_local s_boost set_boost (Inverse (Boost_of (BoostToCM com))) ;
  ret (GenVector.apply boost lv).

(** Lines 72-92, the MCParticle loop. [UTIL::LCIterator] holds the
    collection, the index [i] of the next element and the number of
    elements; [n] is the number of elements left, and [it.next()] is null
    when there is none. [setMomentum] writes through the pointer into the
    collection of the event. *)
Fixpoint particleLoop (col : list MCParticleImpl) (i n : nat)
    : M (list MCParticleImpl) :=
  match n with
  | 0 => ret col
  | S n' =>
      match col !! i with
      | None => ret col
      | Some particle =>
          let lv := mkLV (at3 (getMomentum particle) 0)
                         (at3 (getMomentum particle) 1)
                         (at3 (getMomentum particle) 2)
                         (getEnergy particle) in
          do boosted <- getBoosted lv ;
          let momentum := (Px boosted, Py boosted, Pz boosted) in
          particleLoop (<[i := setMomentum particle momentum]> col) (S i) n'
      end
  end.

(** What one pass of the event loop does to the event it read. *)
Definition boostEvent (evt : LCEvent) : M LCEvent :=
  do col <- particleLoop (MCParticle evt) 0 (length (MCParticle evt)) ;
  ret (setMCParticle evt col).

(** Lines 66-100, the event loop. [pending] holds the events the reader
    has not yet returned: [readNextEvent] yields its head, or the null
    pointer when it is empty. *)
Fixpoint eventLoop (lcReader : string) (lcWriter : LCWriter)
    (pending : list LCEvent) (nEvtRead : nat) : M unit :=
  run perform (ReadEvent lcReader) ;
  match pending with
  | [] => ret tt
  | evt :: rest =>
      run cout ("Event " +:+ pretty nEvtRead +:+ endl) ;
      do evt' <- boostEvent evt ;
      run writeEvent lcWriter evt' ;
      eventLoop lcReader lcWriter rest (S nEvtRead)
  end.

(** Lines 43-101. *)
Definition boostFile (fname : string) : M unit :=
  do lcReader <- LCReader_open fname ;
  run cout ("N events: " +:+ pretty (getNumberOfEvents lcReader) +:+ endl) ;
  run cout ("Will write: " +:+ outpath fname +:+ endl) ;
  do lcWriter <- LCWriter_open_new (outpath fname) ;
  eventLoop (rd_path lcReader) lcWriter (rd_pending lcReader) 0.

Definition usage : string :=
  " usage:  boostLCIO <input-file1> [[input-file2],...]" +:+ endl +:+ endl.

(** Lines 116-119: [boostFile(argv[i])] for each remaining argument. *)
Fixpoint fileLoop (fnames : list string) : M unit :=
  match fnames with
  | [] => ret tt
  | fname :: rest => run boostFile fname ; fileLoop rest
  end.

(** Lines 104-122. [argv] holds the program name and the arguments;
    [argc] is its length. *)
Definition main (argv : list string) : M Z :=
  let argc := length argv in
  if argc <? 2 then
    run cout usage ;
    exit 1
  else
    run fileLoop (drop 1 argv) ;
    ret 0%Z.

(** The exit status of the process: the value [main] returns or the
    argument of [exit]; none when an exception ends the process. *)
Definition exit_status (o : Outcome Z) : option Z :=
  match o with
  | Returned status _ => Some status
  | Exited status _ => Some status
  | Threw _ _ => None
  end.

(** ** Definitions the statements use *)

(** The two reference four-momenta and their sum. *)
Definition beamA : PxPyPzEVector := mkLV 0 0 500 500.
Definition beamB : PxPyPzEVector := mkLV 0 0 (-31.3) 31.3.
Definition beamSum : PxPyPzEVector := add beamA beamB.

(** The transform of the specification, [computeBoost()], by the steps of
    its section 4.1: A, B, their sum S, the boost vector that brings S to
    its rest frame, the boost of that vector, inverted. *)
Definition computeBoost : Boost :=
  let A := mkLV 0 0 500 500 in
  let B := mkLV 0 0 (-31.3) 31.3 in
  let S := add A B in
  let beta := BoostToCM S in
  Inverse (Boost_of beta).

(** The static objects once [getBoosted] has run, and the two states they
    can be in during a run of the process. *)
Definition initialised : Statics :=
  mkStatics (Some beamA) (Some beamB) (Some beamSum) (Some computeBoost).
Definition statics_ok (s : Statics) : Prop :=
  s = no_statics \/ s = initialised.

(** The four-momentum line 75 builds from a particle, and the particle
    with the spatial part of a four-vector as its momentum. *)
Definition fourMomentum (p : MCParticleImpl) : PxPyPzEVector :=
  mkLV (at3 (getMomentum p) 0) (at3 (getMomentum p) 1)
       (at3 (getMomentum p) 2) (getEnergy p).
Definition spatial (v : PxPyPzEVector) : double3 := (Px v, Py v, Pz v).
Definition boostedParticle (p : MCParticleImpl) : MCParticleImpl :=
  setMomentum p (spatial (GenVector.apply computeBoost (fourMomentum p))).

(** The event with every particle of its MCParticle collection boosted. *)
Definition boostedEvent (evt : LCEvent) : LCEvent :=
  setMCParticle evt (boostedParticle <$> MCParticle evt).

(** Every file of the list is processed, one after the other, and none
    fails: [boostFile] returns each time. *)
Inductive Processed : list string -> World -> World -> Prop :=
| Processed_nil w : Processed [] w w
| Processed_cons fname rest w w1 w' :
    boostFile fname w = Returned tt w1 ->
    Processed rest w1 w' ->
    Processed (fname :: rest) w w'.

(** The files opened for reading, in the order of the trace. *)
Definition opened_for_read (t : list IOAction) : list string :=
  omap (fun a => match a with OpenRead path => Some path | _ => None end) t.

(** The speed and the Lorentz factor of the reference system. *)
Definition betaCM : R := (4687 / 5313)%R.
Definition gammaCM : R := (1 / sqrt (1 - betaCM * betaCM))%R.

(** The actions of the event loop on a file of [n] events, the first
    being printed as number [first]: per event a read, the progress line
    and a write, and at the end the read that finds no event. *)
Fixpoint eventTrace (lcReader out : string) (n first : nat) : list IOAction :=
  match n with
  | 0 => [ReadEvent lcReader]
  | S n' =>
      ReadEvent lcReader
      :: Print ("Event " +:+ pretty first +:+ endl)
      :: WriteEvent out
      :: eventTrace lcReader out n' (S first)
  end.

(** The actions of [boostFile] on a file of [n] events when nothing fails. *)
Definition fileTrace (fname : string) (n : nat) : list IOAction :=
  OpenRead fname
  :: Print ("N events: " +:+ pretty n +:+ endl)
  :: Print ("Will write: " +:+ outpath fname +:+ endl)
  :: OpenWrite (outpath fname)
  :: eventTrace fname (outpath fname) n 0.

(** The files events were read from, and the files events were written
    to, in the order of the trace. *)
Definition event_reads (t : list IOAction) : list string :=
  omap (fun a => match a with ReadEvent path => Some path | _ => None end) t.
Definition event_writes (t : list IOAction) : list string :=
  omap (fun a => match a with WriteEvent path => Some path | _ => None end) t.

(** ** The boost in binary64 *)

(** The formulas of [GenVector] and lines 34-40 of [getBoosted] once
    more, every operation being the IEEE-754 binary64 operation, in the
    order in which the formulas above are written. A decimal constant
    denotes the nearest double, as it does in C++. The static objects only
    decide when the transform is computed, not its value, so the function
    is pure. *)
Module Binary64.
Import PrimFloat.
Local Open Scope float_scope.
#[local] Set Warnings "-inexact-float".

Record PxPyPzEVector : Type := mkLV { Px : float; Py : float; Pz : float; E : float }.
Record XYZVector : Type := mkXYZ { vX : float; vY : float; vZ : float }.
Record Boost : Type := mkBoost {
  kXX : float; kXY : float; kXZ : float; kXT : float;
               kYY : float; kYZ : float; kYT : float;
                            kZZ : float; kZT : float;
                                         kTT : float }.

Definition add (a b : PxPyPzEVector) : PxPyPzEVector :=
  mkLV (Px a + Px b) (Py a + Py b) (Pz a + Pz b) (E a + E b).

Definition M2 (v : PxPyPzEVector) : float :=
  E v * E v - (Px v * Px v + Py v * Py v + Pz v * Pz v).

Definition BoostToCM (v : PxPyPzEVector) : XYZVector :=
  mkXYZ (- Px v / E v) (- Py v / E v) (- Pz v / E v).

Definition Boost_of (beta : XYZVector) : Boost :=
  let bx := vX beta in
  let by' := vY beta in
  let bz := vZ beta in
  let bp2 := bx * bx + by' * by' + bz * bz in
  let gamma := 1 / sqrt (1 - bp2) in
  let bgamma := gamma * gamma / (1 + gamma) in
  {| kXX := 1 + bgamma * bx * bx;
     kYY := 1 + bgamma * by' * by';
     kZZ := 1 + bgamma * bz * bz;
     kXY := bgamma * bx * by';
     kXZ := bgamma * bx * bz;
     kYZ := bgamma * by' * bz;
     kXT := gamma * bx;
     kYT := gamma * by';
     kZT := gamma * bz;
     kTT := gamma |}.

Definition Inverse (b : Boost) : Boost :=
  {| kXX := kXX b; kXY := kXY b; kXZ := kXZ b; kXT := - kXT b;
     kYY := kYY b; kYZ := kYZ b; kYT := - kYT b;
     kZZ := kZZ b; kZT := - kZT b;
     kTT := kTT b |}.

Definition apply (b : Boost) (v : PxPyPzEVector) : PxPyPzEVector :=
  let x := Px v in
  let y := Py v in
  let z := Pz v in
  let t := E v in
  mkLV (kXX b * x + kXY b * y + kXZ b * z + kXT b * t)
       (kXY b * x + kYY b * y + kYZ b * z + kYT b * t)
       (kXZ b * x + kYZ b * y + kZZ b * z + kZT b * t)
       (kXT b * x + kYT b * y + kZT b * z + kTT b * t).

(** Lines 34-40. *)
Definition getBoosted (lv : PxPyPzEVector) : PxPyPzEVector :=
  let em := mkLV 0 0 500 500 in
  let ep := mkLV 0 0 (-31.3) 31.3 in
  let com := add em ep in
  let boost := Inverse (Boost_of (BoostToCM com)) in
  apply boost lv.


(** A massless four-momentum, and an electron of 250 GeV along z, its
    energy being the double nearest to √(250² + 0.000511²). *)
Definition photon : PxPyPzEVector := mkLV 3 4 0 5.
Definition electron : PxPyPzEVector := mkLV 0 0 250 250.00000000052225.

End Binary64.

(** * Properties *)

(** ** The reference system *)

Section Numeric.
Local Open Scope R_scope.

Lemma gamma_spec (b2 : R) :
  b2 < 1 ->
  0 < 1 / sqrt (1 - b2) /\
  (1 / sqrt (1 - b2)) * (1 / sqrt (1 - b2)) * (1 - b2) = 1.
Proof.
  intros Hb.
  assert (Hd : 0 < 1 - b2) by lra.
  pose proof (sqrt_lt_R0 _ Hd) as Hs.
  pose proof (sqrt_sqrt (1 - b2) (Rlt_le _ _ Hd)) as Hss.
  split.
  - apply Rdiv_lt_0_compat; lra.
  - rewrite <- Hss at 3. field. lra.
Qed.

Lemma BoostToCM_beamSum :
  BoostToCM beamSum = mkXYZ 0 0 (- betaCM).
Proof.
  unfold BoostToCM, beamSum, beamA, beamB, add, betaCM; simpl.
  f_equal; lra.
Qed.

Lemma betaCM_subluminal : betaCM * betaCM < 1.
Proof. unfold betaCM. lra. Qed.

Lemma gammaCM_pos : 0 < gammaCM.
Proof. apply (gamma_spec _ betaCM_subluminal). Qed.

Lemma gammaCM_sqr : gammaCM * gammaCM * (1 - betaCM * betaCM) = 1.
Proof. apply (gamma_spec _ betaCM_subluminal). Qed.

Lemma gammaCM_bounds : 2.1235 < gammaCM < 2.1236.
Proof.
  pose proof gammaCM_pos as Hp. pose proof gammaCM_sqr as Hs.
  unfold betaCM in Hs. nra.
Qed.

End Numeric.

(** ** The cached boost *)

Section Boosting.
Local Open Scope R_scope.

Local Ltac entries :=
  cbn [kXX kXY kXZ kXT kYY kYZ kYT kZZ kZT kTT Px Py Pz E vX vY vZ].

Lemma beamSum_components : beamSum = mkLV 0 0 468.7 531.3.
Proof. unfold beamSum, beamA, beamB, add; simpl. f_equal; lra. Qed.

Lemma forward_entries :
  Boost_of (BoostToCM beamSum) =
  mkBoost 1 0 0 0 1 0 0 gammaCM (- (gammaCM * betaCM)) gammaCM.
Proof.
  pose proof gammaCM_pos as Hp. pose proof gammaCM_sqr as Hs.
  rewrite BoostToCM_beamSum.
  unfold Boost_of; cbn [vX vY vZ].
  replace (0 * 0 + 0 * 0 + - betaCM * - betaCM) with (betaCM * betaCM) by ring.
  fold gammaCM.
  f_equal; try ring.
  assert (Hb : gammaCM * gammaCM * betaCM * betaCM = gammaCM * gammaCM - 1) by lra.
  replace (gammaCM * gammaCM / (1 + gammaCM) * - betaCM * - betaCM)
    with ((gammaCM * gammaCM * betaCM * betaCM) / (1 + gammaCM)) by (field; lra).
  rewrite Hb. field. lra.
Qed.

Lemma computeBoost_entries :
  computeBoost =
  mkBoost 1 0 0 0 1 0 0 gammaCM (gammaCM * betaCM) gammaCM.
Proof.
  unfold computeBoost; cbv zeta.
  change (add (mkLV 0 0 500 500) (mkLV 0 0 (-31.3) 31.3)) with beamSum.
  rewrite forward_entries. unfold Inverse; entries.
  f_equal; ring.
Qed.

Lemma apply_computeBoost (v : PxPyPzEVector) :
  GenVector.apply computeBoost v =
  mkLV (Px v) (Py v)
       (gammaCM * Pz v + gammaCM * betaCM * E v)
       (gammaCM * betaCM * Pz v + gammaCM * E v).
Proof.
  rewrite computeBoost_entries. unfold GenVector.apply; entries.
  f_equal; ring.
Qed.

Lemma apply_forward (v : PxPyPzEVector) :
  GenVector.apply (Boost_of (BoostToCM beamSum)) v =
  mkLV (Px v) (Py v)
       (gammaCM * Pz v - gammaCM * betaCM * E v)
       (gammaCM * E v - gammaCM * betaCM * Pz v).
Proof.
  rewrite forward_entries. unfold GenVector.apply; entries.
  f_equal; ring.
Qed.

Lemma M2_computeBoost (v : PxPyPzEVector) :
  M2 (GenVector.apply computeBoost v) = M2 v.
Proof.
  rewrite apply_computeBoost. unfold M2; cbn [Px Py Pz E].
  pose proof gammaCM_sqr as Hs.
  set (g := gammaCM) in *. set (b := betaCM) in *.
  replace ((g * b * Pz v + g * E v) * (g * b * Pz v + g * E v) -
           (Px v * Px v + Py v * Py v +
            (g * Pz v + g * b * E v) * (g * Pz v + g * b * E v)))
    with (g * g * (1 - b * b) * (E v * E v - Pz v * Pz v) -
          (Px v * Px v + Py v * Py v)) by ring.
  rewrite Hs. ring.
Qed.

Lemma restMass_sqr : sqrt (M2 beamSum) * sqrt (M2 beamSum) = 62600.
Proof.
  rewrite sqrt_sqrt; rewrite beamSum_components; unfold M2; cbn [Px Py Pz E]; lra.
Qed.

Lemma gamma_restMass : gammaCM * sqrt (M2 beamSum) = 531.3.
Proof.
  pose proof gammaCM_pos as Hp. pose proof gammaCM_sqr as Hs.
  pose proof restMass_sqr as Hm.
  assert (Hpos : 0 < sqrt (M2 beamSum)).
  { apply sqrt_lt_R0. rewrite beamSum_components; unfold M2; cbn [Px Py Pz E]; lra. }
  set (m := sqrt (M2 beamSum)) in *. unfold betaCM in Hs.
  assert (Hsq : (gammaCM * m) * (gammaCM * m) = 531.3 * 531.3).
  { replace (gammaCM * m * (gammaCM * m)) with (gammaCM * gammaCM * (m * m)) by ring.
    rewrite Hm. lra. }
  assert (Hgm : 0 < gammaCM * m) by (apply Rmult_lt_0_compat; assumption).
  nra.
Qed.

Lemma getBoosted_ok (lv : PxPyPzEVector) (w : World) :
  statics_ok (statics w) ->
  getBoosted lv w =
  Returned (GenVector.apply computeBoost lv) (with_statics w initialised).
Proof.
  destruct w as [s fs t]; cbn [statics]; intros [-> | ->]; reflexivity.
Qed.

Lemma getBoosted_cached (lv e p c : PxPyPzEVector) (b : Boost) (w : World) :
  statics w = mkStatics (Some e) (Some p) (Some c) (Some b) ->
  getBoosted lv w = Returned (GenVector.apply b lv) w.
Proof.
  destruct w as [s fs t]; cbn [statics]; intros ->; reflexivity.
Qed.

End Boosting.

(** ** Rounding in binary64 *)

Section Rounding.
Import PrimFloat.
Local Open Scope float_scope.
#[local] Set Warnings "-inexact-float".

(** What the module [Binary64] computes at its two inputs: the energy of
    the electron is the double its definition says, and the invariant
    masses before and after the boost. *)
Lemma binary64_values :
  Binary64.E Binary64.electron
    = sqrt (250 * 250 + 0.000511 * 0.000511) /\
  Binary64.M2 Binary64.photon = 0 /\
  Binary64.M2 (Binary64.getBoosted Binary64.photon)
    = -1.4210854715202004e-14 /\
  Binary64.M2 Binary64.electron = 2.6112684281542897e-07 /\
  Binary64.M2 (Binary64.getBoosted Binary64.electron)
    = 2.6100315153598785e-07 /\
  Binary64.Pz (Binary64.getBoosted
                 (Binary64.add (Binary64.mkLV 0 0 500 500)
                               (Binary64.mkLV 0 0 (-31.3) 31.3)))
    = 1990.5706599455784.
Proof. repeat split; vm_compute; reflexivity. Qed.


End Rounding.

(** ** What getBoosted returns *)

Section GetBoosted.
Local Open Scope R_scope.
Lemma statics_ok_start (fs : gmap string (list LCEvent)) :
  statics_ok (statics (start fs)).
Proof. left; reflexivity. Qed.

Lemma statics_ok_initialised (w : World) :
  statics_ok (statics (with_statics w initialised)).
Proof. right; reflexivity. Qed.

Lemma with_statics_twice (w : World) (s s' : Statics) :
  with_statics (with_statics w s) s' = with_statics w s'.
Proof. reflexivity. Qed.



(** C8: the boost is along z: [getBoosted] returns the transverse
    components px and py of its argument unchanged. *)
Theorem getBoosted_transverse (lv : PxPyPzEVector) (w : World) :
  statics_ok (statics w) ->
  exists out w',
    getBoosted lv w = Returned out w' /\
    Px out = Px lv /\ Py out = Py lv.
Proof.
  intros Hok. rewrite (getBoosted_ok lv w Hok).
  eexists _, _; split; [reflexivity |].
  rewrite apply_computeBoost. split; reflexivity.
Qed.

Lemma getBoosted_transverse_witness :
  exists out w',
    getBoosted (mkLV 3 4 12 14) (start ∅) = Returned out w' /\
    Px out = 3 /\ Py out = 4.
Proof.
  apply (getBoosted_transverse (mkLV 3 4 12 14) (start ∅)).
  left; reflexivity.
Defined.

(** C6: the transform is computed once and then read from the cache.
    From either state of the static objects a call caches [computeBoost];
    every later call returns what that cached transform gives and leaves
    the process state as it is; the same argument gives the same result;
    and a call that finds the static objects set uses them as they are. *)
Theorem getBoosted_cached_deterministic (lv : PxPyPzEVector) (w : World) :
  statics_ok (statics w) ->
  exists out w1,
    getBoosted lv w = Returned out w1 /\
    s_boost (statics w1) = Some computeBoost /\
    getBoosted lv w1 = Returned out w1 /\
    (forall lv', getBoosted lv' w1 =
                 Returned (GenVector.apply computeBoost lv') w1) /\
    (forall lv' e p c b w2,
        statics w2 = mkStatics (Some e) (Some p) (Some c) (Some b) ->
        getBoosted lv' w2 = Returned (GenVector.apply b lv') w2).
Proof.
  intros Hok. rewrite (getBoosted_ok lv w Hok).
  eexists _, _; split; [reflexivity |].
  split; [reflexivity |].
  split; [apply getBoosted_cached with beamA beamB beamSum; reflexivity |].
  split.
  - intros lv'. apply getBoosted_cached with beamA beamB beamSum; reflexivity.
  - intros lv' e p c b w2 H2. eapply getBoosted_cached; exact H2.
Qed.

Lemma getBoosted_cached_deterministic_witness :
  exists out w1,
    getBoosted (mkLV 1 2 3 4) (start ∅) = Returned out w1 /\
    getBoosted (mkLV 1 2 3 4) w1 = Returned out w1.
Proof.
  destruct (getBoosted_cached_deterministic (mkLV 1 2 3 4) (start ∅))
    as (out & w1 & H1 & _ & H2 & _).
  - left; reflexivity.
  - exists out, w1. split; assumption.
Defined.

End GetBoosted.

(** ** The reference system under the cached boost *)

Section RestFrame.
Local Open Scope R_scope.

Lemma Pz_boosted_beamSum :
  Pz (GenVector.apply computeBoost beamSum) = 2 * gammaCM * 468.7.
Proof.
  rewrite apply_computeBoost, beamSum_components; cbn [Px Py Pz E].
  unfold betaCM. lra.
Qed.

Lemma Pz_boosted_beamSum_bounds :
  1990.5 < Pz (GenVector.apply computeBoost beamSum) < 1990.7.
Proof.
  rewrite Pz_boosted_beamSum. pose proof gammaCM_bounds. lra.
Qed.

Lemma forward_beamSum :
  GenVector.apply (Boost_of (BoostToCM beamSum)) beamSum =
  mkLV 0 0 0 (sqrt (M2 beamSum)).
Proof.
  rewrite apply_forward.
  pose proof gamma_restMass as Hg. pose proof restMass_sqr as Hm.
  set (m := sqrt (M2 beamSum)) in *.
  rewrite beamSum_components; cbn [Px Py Pz E].
  f_equal.
  - unfold betaCM. lra.
  - replace (gammaCM * 531.3 - gammaCM * betaCM * 468.7)
      with (gammaCM * 62600 / 531.3) by (unfold betaCM; lra).
    rewrite <- Hm.
    replace (gammaCM * (m * m) / 531.3) with (gammaCM * m * m / 531.3) by lra.
    rewrite Hg. lra.
Qed.

Lemma computeBoost_rest :
  GenVector.apply computeBoost (mkLV 0 0 0 (sqrt (M2 beamSum))) = beamSum.
Proof.
  rewrite apply_computeBoost; cbn [Px Py Pz E].
  pose proof gamma_restMass as Hg.
  rewrite beamSum_components at 3.
  f_equal.
  - replace (gammaCM * 0 + gammaCM * betaCM * sqrt (M2 beamSum))
      with (gammaCM * sqrt (M2 beamSum) * betaCM) by ring.
    rewrite Hg. unfold betaCM. lra.
  - replace (gammaCM * betaCM * 0 + gammaCM * sqrt (M2 beamSum))
      with (gammaCM * sqrt (M2 beamSum)) by ring.
    exact Hg.
Qed.

(** C2, as the claim states it, fails at the start of the process:
    [getBoosted] of the total four-momentum (0, 0, 468.7, 531.3) does not
    have a pz within 1 GeV of zero. *)
Lemma getBoosted_beamSum_not_at_rest :
  ~ (exists out w',
       getBoosted (add (mkLV 0 0 500 500) (mkLV 0 0 (-31.3) 31.3)) (start ∅)
         = Returned out w' /\
       Rabs (Pz out) <= 1).
Proof.
  intros (out & w' & Hrun & Hpz).
  change (add (mkLV 0 0 500 500) (mkLV 0 0 (-31.3) 31.3)) with beamSum in Hrun.
  rewrite (getBoosted_ok beamSum (start ∅) (statics_ok_start ∅)) in Hrun.
  injection Hrun as <- _.
  pose proof Pz_boosted_beamSum_bounds as [Hlo _].
  unfold Rabs in Hpz. destruct (Rcase_abs _) in Hpz; lra.
Qed.

(** C2, amended: the boost built from the boost vector of S = A + B,
    before the program inverts it, brings S to rest: (0, 0, 0, M) with
    M² = E² − pz² of S. [getBoosted] applies the inverse: it carries that
    four-vector at rest to S, and S itself to a pz of 2·γ·468.7, between
    1990.5 and 1990.7 GeV. *)
Theorem getBoosted_inverse_of_rest_boost (w : World) :
  statics_ok (statics w) ->
  GenVector.apply (Boost_of (BoostToCM beamSum)) beamSum
    = mkLV 0 0 0 (sqrt (M2 beamSum)) /\
  (exists w', getBoosted (mkLV 0 0 0 (sqrt (M2 beamSum))) w
              = Returned beamSum w') /\
  (exists out w', getBoosted beamSum w = Returned out w' /\
                  1990.5 < Pz out < 1990.7).
Proof.
  intros Hok. split; [apply forward_beamSum |]. split.
  - rewrite (getBoosted_ok _ w Hok), computeBoost_rest. eexists; reflexivity.
  - rewrite (getBoosted_ok _ w Hok). eexists _, _; split; [reflexivity |].
    apply Pz_boosted_beamSum_bounds.
Qed.

Lemma getBoosted_inverse_of_rest_boost_witness :
  exists w', getBoosted (mkLV 0 0 0 (sqrt (M2 beamSum))) (start ∅)
             = Returned beamSum w'.
Proof.
  destruct (getBoosted_inverse_of_rest_boost (start ∅)) as (_ & Hrest & _).
  - left; reflexivity.
  - exact Hrest.
Defined.

End RestFrame.

(** ** The name of the output file *)

Section OutputPath.

Lemma append_cons (c : ascii) (s t : string) :
  String c s +:+ t = String c (s +:+ t).
Proof. reflexivity. Qed.

Lemma append_empty_l (t : string) : EmptyString +:+ t = t.
Proof. reflexivity. Qed.

Lemma append_empty_r (s : string) : s +:+ EmptyString = s.
Proof.
  induction s as [| c s IH]; [reflexivity |].
  rewrite append_cons. f_equal. exact IH.
Qed.

Lemma occurs_append (c : ascii) (s t : string) :
  Path.occurs c (s +:+ t) = Path.occurs c s || Path.occurs c t.
Proof.
  induction s as [| a s IH]; [reflexivity |].
  rewrite append_cons. cbn [Path.occurs]. rewrite IH. apply orb_assoc.
Qed.

Lemma split_filename_cons (c : ascii) (rest : string) :
  Path.split_filename (String c rest) =
  let '(d, f) := Path.split_filename rest in
  match d with
  | String _ _ => (String c d, f)
  | EmptyString =>
      if Ascii.eqb c Path.sep then (String c EmptyString, f)
      else (EmptyString, String c f)
  end.
Proof. reflexivity. Qed.

Lemma split_filename_spec (p d f : string) :
  Path.split_filename p = (d, f) ->
  p = d +:+ f /\
  Path.occurs Path.sep f = false /\
  Path.split_filename d = (d, EmptyString).
Proof.
  revert d f. induction p as [| c rest IH]; intros d f.
  - intros [= <- <-]. repeat split.
  - rewrite split_filename_cons.
    destruct (Path.split_filename rest) as [d0 f0] eqn:Hrest.
    destruct (IH d0 f0 eq_refl) as (Happ & Hsep & Hdir).
    destruct d0 as [| a d1].
    + rewrite append_empty_l in Happ. subst f0.
      destruct (Ascii.eqb c Path.sep) eqn:Hc; intros [= <- <-];
        rewrite ?split_filename_cons; cbn [Path.occurs Path.split_filename].
      * rewrite Hc. repeat split. exact Hsep.
      * rewrite Ascii.eqb_sym, Hc, Hsep. repeat split.
    + intros [= <- <-]. rewrite split_filename_cons, Hdir.
      repeat split; [rewrite append_cons; now f_equal | exact Hsep].
Qed.

Lemma split_dot_spec (f s e : string) :
  Path.split_dot f = (s, e) ->
  f = s +:+ e /\
  (e = EmptyString \/
   exists e', e = String Path.dot e' /\ Path.occurs Path.dot e' = false) /\
  (e = EmptyString -> Path.occurs Path.dot f = false).
Proof.
  revert s e. induction f as [| c rest IH]; intros s e;
    cbn [Path.split_dot Path.occurs].
  - intros [= <- <-]. repeat split; auto.
  - destruct (Path.split_dot rest) as [s0 e0] eqn:Hrest.
    destruct (IH s0 e0 eq_refl) as (Happ & Hext & Hnone).
    destruct e0 as [| a e1].
    + rewrite append_empty_r in Happ. subst s0.
      specialize (Hnone eq_refl).
      destruct (Ascii.eqb c Path.dot) eqn:Hc; intros [= <- <-].
      * apply Ascii.eqb_eq in Hc. subst c.
        repeat split; [right; eauto | discriminate].
      * rewrite append_empty_r, Ascii.eqb_sym, Hc, Hnone.
        repeat split; auto.
    + intros [= <- <-]. rewrite append_cons, <- Happ.
      repeat split; [exact Hext | discriminate].
Qed.

Lemma stem_extension_spec (f : string) :
  f = fst (Path.stem_extension f) +:+ snd (Path.stem_extension f) /\
  (snd (Path.stem_extension f) = EmptyString \/
   exists e', snd (Path.stem_extension f) = String Path.dot e' /\
              Path.occurs Path.dot e' = false).
Proof.
  unfold Path.stem_extension.
  destruct (String.eqb f "." || String.eqb f "..").
  - simpl. rewrite append_empty_r. auto.
  - destruct (Path.split_dot f) as [s e] eqn:Hsplit.
    destruct (split_dot_spec f s e Hsplit) as (Happ & Hext & _).
    destruct s; simpl.
    + rewrite append_empty_r. auto.
    + split; [exact Happ | exact Hext].
Qed.

Lemma filename_decompose (p : string) :
  p = Path.remove_filename p +:+ Path.stem p +:+ Path.extension p /\
  Path.occurs Path.sep (Path.stem p) = false /\
  Path.occurs Path.sep (Path.extension p) = false /\
  Path.has_filename (Path.remove_filename p) = false.
Proof.
  unfold Path.remove_filename, Path.stem, Path.extension, Path.has_filename,
    Path.filename.
  destruct (Path.split_filename p) as [d f] eqn:Hsplit.
  destruct (split_filename_spec p d f Hsplit) as (Happ & Hsep & Hdir).
  destruct (stem_extension_spec f) as (Hf & _).
  cbn [fst snd]. rewrite Hdir. cbn [snd].
  rewrite Hf, occurs_append in Hsep. apply orb_false_elim in Hsep as [Hs He].
  rewrite <- Hf. repeat split; assumption.
Qed.

Lemma marked_name_relative (p : string) :
  Path.is_absolute (Path.stem p +:+ "-boosted" +:+ Path.extension p) = false.
Proof.
  destruct (filename_decompose p) as (_ & Hs & _).
  destruct (Path.stem p) as [| c s]; [reflexivity |].
  cbn [Path.occurs] in Hs. apply orb_false_elim in Hs as [Hc _].
  rewrite append_cons. cbn [Path.is_absolute].
  now rewrite Ascii.eqb_sym.
Qed.

Lemma outpath_concat (p : string) :
  outpath p =
  Path.remove_filename p +:+ Path.stem p +:+ "-boosted" +:+ Path.extension p.
Proof.
  unfold outpath, Path.replace_filename, Path.append.
  rewrite marked_name_relative.
  destruct (filename_decompose p) as (_ & _ & _ & ->).
  reflexivity.
Qed.

Lemma append_assoc (s t u : string) : (s +:+ t) +:+ u = s +:+ t +:+ u.
Proof.
  induction s as [| c s IH]; [reflexivity |].
  rewrite !append_cons. f_equal. exact IH.
Qed.

(** C5: the output path is the directory part of the input path followed
    by stem, "-boosted" and extension, where the input path is directory
    part, stem and extension; the extension is empty or starts at the
    last period of the filename, so the marker stands before the final
    extension only. This holds for every input path, with a filename or
    without. *)
Theorem outpath_naming (p : string) :
  outpath p =
    Path.append (Path.remove_filename p)
      (Path.stem p +:+ "-boosted" +:+ Path.extension p) /\
  outpath p =
    Path.remove_filename p +:+ Path.stem p +:+ "-boosted" +:+ Path.extension p /\
  p = Path.remove_filename p +:+ Path.stem p +:+ Path.extension p /\
  (Path.extension p = EmptyString \/
   exists e, Path.extension p = String "." e /\ Path.occurs "." e = false) /\
  outpath "/a/b/run01.slcio" = "/a/b/run01-boosted.slcio" /\
  outpath "run.test.slcio" = "run.test-boosted.slcio".
Proof.
  split; [reflexivity |].
  split; [apply outpath_concat |].
  split; [apply filename_decompose |].
  split; [apply stem_extension_spec |].
  split; reflexivity.
Qed.

(** C9: for an input path whose filename has no extension the marker is
    still inserted: the output path is the input path followed by
    "-boosted", the stem with the marker and the empty extension. *)
Theorem outpath_no_extension (p : string) :
  Path.extension p = EmptyString ->
  outpath p = p +:+ "-boosted" /\
  outpath p =
    Path.remove_filename p +:+ Path.stem p +:+ "-boosted" +:+ EmptyString.
Proof.
  intros Hext.
  pose proof (outpath_concat p) as Hout.
  destruct (filename_decompose p) as (Hp & _).
  rewrite Hext in Hout, Hp. rewrite append_empty_r in Hp.
  split; [| exact Hout].
  rewrite Hout.
  remember (Path.remove_filename p) as d eqn:Hd.
  remember (Path.stem p) as st eqn:Hst.
  rewrite Hp, append_assoc. reflexivity.
Qed.

Lemma outpath_no_extension_witness :
  Path.extension "run" = EmptyString /\ outpath "run" = "run-boosted".
Proof.
  split; [reflexivity |].
  destruct (outpath_no_extension "run") as [Hout _]; [reflexivity | exact Hout].
Defined.

End OutputPath.
Example outpath_a : outpath "/a/b/run01.slcio" = "/a/b/run01-boosted.slcio".
Proof. reflexivity. Qed.
Example outpath_b : outpath "run.test.slcio" = "run.test-boosted.slcio".
Proof. reflexivity. Qed.
Example outpath_c : outpath "run" = "run-boosted".
Proof. reflexivity. Qed.
Example outpath_d : outpath "/a.b/.hidden" = "/a.b/.hidden-boosted".
Proof. reflexivity. Qed.
Example outpath_e : outpath "a//..x" = "a//.-boosted.x".
Proof. reflexivity. Qed.
Example outpath_f : outpath "/a/b/" = "/a/b/-boosted".
Proof. reflexivity. Qed.
Example outpath_g : outpath "../.." = "../..-boosted".
Proof. reflexivity. Qed.

(** ** The particles of an event *)

Section Events.

Lemma with_statics_same (w : World) : with_statics w (statics w) = w.
Proof. destruct w; reflexivity. Qed.

Lemma bind_Returned {A B : Type} (c : M A) (k : A -> M B) (w w' : World) (a : A) :
  c w = Returned a w' -> bind c k w = k a w'.
Proof. intros H. unfold bind. now rewrite H. Qed.

Lemma particleLoop_spec (n : nat) :
  forall (col : list MCParticleImpl) (i : nat) (w : World),
    statics_ok (statics w) ->
    i + n = length col ->
    exists s',
      statics_ok s' /\
      particleLoop col i n w =
      Returned (take i col ++ (boostedParticle <$> drop i col)) (with_statics w s').
Proof.
  induction n as [| n IH]; intros col i w Hok Hlen.
  - exists (statics w). split; [exact Hok |].
    rewrite with_statics_same, take_ge, drop_ge, app_nil_r by lia.
    reflexivity.
  - destruct (lookup_lt_is_Some_2 col i) as [p Hp]; [lia |].
    cbn [particleLoop]. rewrite Hp.
    rewrite (bind_Returned _ _ _ _ _ (getBoosted_ok _ w Hok)).
    set (p' := setMomentum p _).
    destruct (IH (<[i := p']> col) (S i) (with_statics w initialised))
      as (s' & Hs' & Hrun).
    { apply statics_ok_initialised. }
    { rewrite length_insert. lia. }
    exists s'. split; [exact Hs' |].
    rewrite Hrun, with_statics_twice. f_equal.
    rewrite (take_S_r _ _ p'), take_insert_ge, drop_insert_lt by
      (try apply list_lookup_insert_eq; lia).
    rewrite (drop_S col p i Hp), fmap_cons, <- app_assoc.
    reflexivity.
Qed.

Lemma boostEvent_spec (evt : LCEvent) (w : World) :
  statics_ok (statics w) ->
  exists s',
    statics_ok s' /\
    boostEvent evt w = Returned (boostedEvent evt) (with_statics w s').
Proof.
  intros Hok.
  destruct (particleLoop_spec (length (MCParticle evt)) (MCParticle evt) 0 w Hok)
    as (s' & Hs' & Hrun); [lia |].
  exists s'. split; [exact Hs' |].
  unfold boostEvent. rewrite (bind_Returned _ _ _ _ _ Hrun).
  rewrite take_0, drop_0. reflexivity.
Qed.

(** C4: an event of N particle records still has N after the particle
    loop; its other collections are as they were; and the record at each
    position keeps its energy, PDG code, vertex, parents and daughters,
    its momentum being the px, py, pz [getBoosted] returns for the
    four-momentum built from the record. *)
Theorem boostEvent_frame (evt : LCEvent) (w : World) :
  statics_ok (statics w) ->
  exists evt' w',
    boostEvent evt w = Returned evt' w' /\
    length (MCParticle evt') = length (MCParticle evt) /\
    otherCollections evt' = otherCollections evt /\
    forall (i : nat) (p : MCParticleImpl),
      MCParticle evt !! i = Some p ->
      exists p' out w1,
        MCParticle evt' !! i = Some p' /\
        getEnergy p' = getEnergy p /\
        getPDG p' = getPDG p /\
        getVertex p' = getVertex p /\
        getParents p' = getParents p /\
        getDaughters p' = getDaughters p /\
        getBoosted (mkLV (at3 (getMomentum p) 0) (at3 (getMomentum p) 1)
                         (at3 (getMomentum p) 2) (getEnergy p)) w
          = Returned out w1 /\
        getMomentum p' = (Px out, Py out, Pz out).
Proof.
  intros Hok.
  destruct (boostEvent_spec evt w Hok) as (s' & _ & Hrun).
  eexists _, _. split; [exact Hrun |].
  split; [apply length_fmap |].
  split; [reflexivity |].
  intros i p Hp.
  exists (boostedParticle p), (GenVector.apply computeBoost (fourMomentum p)),
    (with_statics w initialised).
  split; [| repeat split].
  - cbn [boostedEvent setMCParticle MCParticle].
    now rewrite list_lookup_fmap, Hp.
  - apply (getBoosted_ok (fourMomentum p) w Hok).
Qed.

Lemma boostEvent_frame_witness :
  exists evt' w',
    boostEvent
      (mkLCEvent [mkMCParticle (0, 0, 100)%R 100.5%R 11 (0, 0, 0)%R [] [2]] ∅)
      (start ∅) = Returned evt' w' /\
    length (MCParticle evt') = 1.
Proof.
  destruct (boostEvent_frame
    (mkLCEvent [mkMCParticle (0, 0, 100)%R 100.5%R 11 (0, 0, 0)%R [] [2]] ∅)
    (start ∅)) as (evt' & w' & Hrun & Hlen & _).
  - left; reflexivity.
  - exists evt', w'. split; [exact Hrun | exact Hlen].
Defined.

(** C3: [getBoosted] applies the transform the specification constructs:
    with A = (0, 0, 500, 500) and B = (0, 0, −31.3, 31.3), the inverse of
    the boost built from the boost vector that brings S = A + B to its
    rest frame. These are the objects the call leaves cached, and the
    particle loop gives every particle of an event the momentum this
    transform yields. *)
Theorem getBoosted_applies_computeBoost (lv : PxPyPzEVector) (w : World) :
  statics_ok (statics w) ->
  computeBoost =
    Inverse (Boost_of (BoostToCM
      (add (mkLV 0 0 500 500) (mkLV 0 0 (-31.3) 31.3)))) /\
  (exists w',
    getBoosted lv w = Returned (GenVector.apply computeBoost lv) w' /\
    statics w' =
      mkStatics (Some (mkLV 0 0 500 500)) (Some (mkLV 0 0 (-31.3) 31.3))
                (Some (add (mkLV 0 0 500 500) (mkLV 0 0 (-31.3) 31.3)))
                (Some computeBoost)) /\
  (forall evt, exists evt' w',
    boostEvent evt w = Returned evt' w' /\
    MCParticle evt' =
      (fun p => setMomentum p
                  (spatial (GenVector.apply computeBoost (fourMomentum p))))
      <$> MCParticle evt).
Proof.
  intros Hok. split; [reflexivity |]. split.
  - rewrite (getBoosted_ok lv w Hok). eexists; split; reflexivity.
  - intros evt. destruct (boostEvent_spec evt w Hok) as (s' & _ & Hrun).
    eexists _, _. split; [exact Hrun | reflexivity].
Qed.

Lemma getBoosted_applies_computeBoost_witness :
  exists w',
    getBoosted (mkLV 0 0 100 100.5) (start ∅) =
    Returned (GenVector.apply computeBoost (mkLV 0 0 100 100.5)) w'.
Proof.
  destruct (getBoosted_applies_computeBoost (mkLV 0 0 100 100.5) (start ∅))
    as (_ & (w' & Hrun & _) & _).
  - left; reflexivity.
  - exists w'. exact Hrun.
Defined.

End Events.

(** ** Files *)

Section Files.

Lemma opened_for_read_app (t1 t2 : list IOAction) :
  opened_for_read (t1 ++ t2) = opened_for_read t1 ++ opened_for_read t2.
Proof. apply omap_app. Qed.

Lemma opened_for_read_OpenRead (path : string) (t : list IOAction) :
  opened_for_read (OpenRead path :: t) = path :: opened_for_read t.
Proof. reflexivity. Qed.

Lemma eventLoop_spec (lcReader : string) (lcWriter : LCWriter)
    (pending : list LCEvent) :
  forall (nEvtRead : nat) (w : World) (written : list LCEvent),
    statics_ok (statics w) ->
    files w !! wr_path lcWriter = Some written ->
    exists s' t',
      statics_ok s' /\
      opened_for_read t' = [] /\
      eventLoop lcReader lcWriter pending nEvtRead w =
      Returned tt
        (mkWorld s'
           (<[wr_path lcWriter := written ++ (boostedEvent <$> pending)]> (files w))
           (trace w ++ t')).
Proof.
  induction pending as [| evt rest IH]; intros nEvtRead w written Hok Hout.
  - exists (statics w), [ReadEvent lcReader].
    split; [exact Hok |]. split; [reflexivity |].
    cbn [eventLoop fmap list_fmap]. rewrite app_nil_r, (insert_id _ _ _ Hout).
    reflexivity.
  - cbn [eventLoop].
    unfold bind at 1, perform. unfold bind at 1, cout, perform.
    destruct (boostEvent_spec evt (log (log w (ReadEvent lcReader))
                (Print ("Event " +:+ pretty nEvtRead +:+ endl))))
      as (s1 & Hs1 & Hrun); [exact Hok |].
    rewrite (bind_Returned _ _ _ _ _ Hrun).
    unfold writeEvent. unfold bind at 1. unfold bind at 1, perform.
    cbn [files with_statics log with_files statics trace]. rewrite Hout.
    cbn [default].
    match goal with |- context [eventLoop _ _ _ _ ?w2] =>
      destruct (IH (S nEvtRead) w2 (written ++ [boostedEvent evt]))
        as (s' & t' & Hs' & Ht' & Hloop)
    end.
    { exact Hs1. }
    { cbn [files]. apply lookup_insert_eq. }
    exists s', (ReadEvent lcReader
                :: Print ("Event " +:+ pretty nEvtRead +:+ endl)
                :: WriteEvent (wr_path lcWriter) :: t').
    split; [exact Hs' |]. split; [exact Ht' |].
    rewrite Hloop. cbn [files trace with_files log with_statics statics].
    do 2 f_equal.
    + rewrite insert_insert_eq, fmap_cons, <- app_assoc. reflexivity.
    + rewrite <- !app_assoc. reflexivity.
Qed.

Lemma bind_perform {B : Type} (a : IOAction) (k : unit -> M B) (w : World) :
  bind (perform a) k w = k tt (log w a).
Proof. reflexivity. Qed.

Lemma bind_Threw {A B : Type} (c : M A) (k : A -> M B) (w w' : World)
    (e : Exception) :
  c w = Threw e w' -> bind c k w = Threw e w'.
Proof. intros H. unfold bind. now rewrite H. Qed.

Lemma LCReader_open_found (fname : string) (w : World) (evts : list LCEvent) :
  files w !! fname = Some evts ->
  LCReader_open fname w =
  Returned (mkReader fname (length evts) evts) (log w (OpenRead fname)).
Proof.
  intros H. unfold LCReader_open, bind, perform. cbn [files log]. now rewrite H.
Qed.

Lemma LCReader_open_missing (fname : string) (w : World) :
  files w !! fname = None ->
  LCReader_open fname w = Threw (IOException fname) (log w (OpenRead fname)).
Proof.
  intros H. unfold LCReader_open, bind, perform. cbn [files log]. now rewrite H.
Qed.

Lemma LCWriter_open_new_fresh (path : string) (w : World) :
  files w !! path = None ->
  LCWriter_open_new path w =
  Returned (mkWriter path)
    (with_files (log w (OpenWrite path)) (<[path := []]> (files w))).
Proof.
  intros H. unfold LCWriter_open_new, bind, perform. cbn [files log].
  now rewrite H.
Qed.

Lemma LCWriter_open_new_exists (path : string) (w : World) (old : list LCEvent) :
  files w !! path = Some old ->
  LCWriter_open_new path w = Threw (IOException path) (log w (OpenWrite path)).
Proof.
  intros H. unfold LCWriter_open_new, bind, perform. cbn [files log].
  now rewrite H.
Qed.

(** What [boostFile] does: it fails when the input file is not found or
    the output file exists, and otherwise returns, having written the
    boosted events to the output file. *)
Lemma boostFile_spec (fname : string) (w : World) :
  statics_ok (statics w) ->
  match files w !! fname with
  | None => exists w', boostFile fname w = Threw (IOException fname) w'
  | Some evts =>
      match files w !! outpath fname with
      | Some _ =>
          exists w', boostFile fname w = Threw (IOException (outpath fname)) w'
      | None =>
          exists s' t',
            statics_ok s' /\
            opened_for_read t' = [] /\
            boostFile fname w =
            Returned tt
              (mkWorld s'
                 (<[outpath fname := boostedEvent <$> evts]> (files w))
                 (trace w ++ OpenRead fname :: t'))
      end
  end.
Proof.
  intros Hok. unfold boostFile.
  destruct (files w !! fname) as [evts |] eqn:Hin.
  2: { eexists. apply bind_Threw, LCReader_open_missing, Hin. }
  rewrite (bind_Returned _ _ _ _ _ (LCReader_open_found _ _ _ Hin)).
  unfold cout. rewrite !bind_perform.
  destruct (files w !! outpath fname) as [old |] eqn:Hout.
  { eexists. eapply bind_Threw, LCWriter_open_new_exists. exact Hout. }
  match goal with |- context [bind (LCWriter_open_new ?p) _ ?w1] =>
    rewrite (bind_Returned _ _ w1 _ _ (LCWriter_open_new_fresh p w1 Hout))
  end.
  cbn [rd_path rd_pending getNumberOfEvents rd_count].
  match goal with |- context [eventLoop _ _ _ _ ?w2] =>
    destruct (eventLoop_spec fname (mkWriter (outpath fname)) evts 0 w2 [])
      as (s' & t' & Hs' & Ht' & Hloop)
  end.
  { exact Hok. }
  { cbn [files with_files wr_path]. apply lookup_insert_eq. }
  exists s', (Print ("N events: " +:+ pretty (length evts) +:+ endl)
              :: Print ("Will write: " +:+ outpath fname +:+ endl)
              :: OpenWrite (outpath fname) :: t').
  split; [exact Hs' |]. split; [exact Ht' |].
  rewrite Hloop. cbn [files with_files wr_path trace log with_statics statics].
  do 2 f_equal.
  - rewrite insert_insert_eq. reflexivity.
  - rewrite <- !app_assoc. reflexivity.
Qed.

End Files.

(** ** The process *)

Section Main.

Lemma fileLoop_Processed (fnames : list string) (w w' : World) :
  Processed fnames w w' -> fileLoop fnames w = Returned tt w'.
Proof.
  induction 1 as [w | fname rest w w1 w' Hfile _ IH]; [reflexivity |].
  cbn [fileLoop]. rewrite (bind_Returned _ _ _ _ _ Hfile). exact IH.
Qed.

Lemma Processed_fileLoop (fnames : list string) :
  forall w w', fileLoop fnames w = Returned tt w' -> Processed fnames w w'.
Proof.
  induction fnames as [| fname rest IH]; intros w w'; cbn [fileLoop].
  - intros [= <-]. constructor.
  - unfold bind at 1.
    destruct (boostFile fname w) as [[] w1 | |] eqn:Hfile; try discriminate.
    intros Hrest. econstructor; [exact Hfile | apply IH, Hrest].
Qed.

Lemma Processed_opened (fnames : list string) (w w' : World) :
  Processed fnames w w' ->
  statics_ok (statics w) ->
  statics_ok (statics w') /\
  opened_for_read (trace w') = opened_for_read (trace w) ++ fnames.
Proof.
  induction 1 as [w | fname rest w w1 w' Hfile _ IH]; intros Hok.
  - rewrite app_nil_r. auto.
  - pose proof (boostFile_spec fname w Hok) as Hspec.
    destruct (files w !! fname) as [evts |].
    2: { destruct Hspec as (w2 & Hthrow). congruence. }
    destruct (files w !! outpath fname) as [old |].
    { destruct Hspec as (w2 & Hthrow). congruence. }
    destruct Hspec as (s' & t' & Hs' & Ht' & Hrun).
    rewrite Hrun in Hfile. injection Hfile as <-.
    destruct (IH Hs') as (Hok' & Hopened).
    split; [exact Hok' |].
    rewrite Hopened. cbn [trace].
    rewrite opened_for_read_app, opened_for_read_OpenRead, Ht', <- app_assoc.
    reflexivity.
Qed.

(** C7: with no input path, [argc < 2], the process prints the usage
    message and exits with status 1, which is not 0; the message is the
    only action of the run, no file is opened, read or written, and the
    files are as they were. *)
Theorem main_usage_error (argv : list string) (w : World) :
  length argv < 2 ->
  main argv w = Exited 1%Z (log w (Print usage)) /\
  (exists status, exit_status (main argv w) = Some status /\ status <> 0%Z) /\
  trace (final (main argv w)) = trace w ++ [Print usage] /\
  is_file_io (Print usage) = false /\
  files (final (main argv w)) = files w.
Proof.
  intros Hargc. unfold main.
  apply Nat.ltb_lt in Hargc. rewrite Hargc.
  unfold cout. rewrite bind_perform. unfold exit.
  cbn [exit_status final trace files log].
  repeat split. exists 1%Z. split; [reflexivity | discriminate].
Qed.

Lemma main_usage_error_witness :
  main ["boostLCIO"] (start ∅) = Exited 1%Z (log (start ∅) (Print usage)).
Proof.
  destruct (main_usage_error ["boostLCIO"] (start ∅)) as (Hrun & _).
  - cbn [length]. lia.
  - exact Hrun.
Defined.

(** C10: when [boostFile] returns for every input path, taken in the
    order of the arguments, [main] returns 0, the exit status of the
    process, and the files were opened for reading in that order. *)
Theorem main_exit_status_zero (argv : list string) (w w' : World) :
  statics_ok (statics w) ->
  2 <= length argv ->
  Processed (drop 1 argv) w w' ->
  main argv w = Returned 0%Z w' /\
  exit_status (main argv w) = Some 0%Z /\
  opened_for_read (trace w') = opened_for_read (trace w) ++ drop 1 argv.
Proof.
  intros Hok Hargc Hfiles.
  assert (Hrun : main argv w = Returned 0%Z w').
  { unfold main.
    destruct (length argv <? 2) eqn:Hlt; [apply Nat.ltb_lt in Hlt; lia |].
    rewrite (bind_Returned _ _ _ _ _ (fileLoop_Processed _ _ _ Hfiles)).
    reflexivity. }
  rewrite Hrun. split; [reflexivity |]. split; [reflexivity |].
  apply (Processed_opened _ _ _ Hfiles Hok).
Qed.

Lemma main_exit_status_zero_witness :
  exit_status
    (main ["boostLCIO"; "run01.slcio"]
       (start {[ "run01.slcio" :=
                 [mkLCEvent [mkMCParticle (0, 0, 100)%R 100.5%R 11 (0, 0, 0)%R [] []] ∅] ]}))
  = Some 0%Z.
Proof.
  eapply main_exit_status_zero.
  - left; reflexivity.
  - cbn [length]. lia.
  - cbn [drop]. eapply Processed_cons; [reflexivity | apply Processed_nil].
Defined.

End Main.

(** * Further properties *)

(** ** More on the name of the output file *)

Section OutputPathMore.

Lemma length_append (s t : string) :
  String.length (s +:+ t) = String.length s + String.length t.
Proof.
  induction s as [| c s IH]; [reflexivity |].
  rewrite append_cons. cbn [String.length]. now rewrite IH.
Qed.

Lemma eqb_length_neq (x y : string) :
  String.length x <> String.length y -> String.eqb x y = false.
Proof. intros H. apply String.eqb_neq. intros ->. now apply H. Qed.

Lemma append_cancel_r (x y z : string) : x +:+ z = y +:+ z -> x = y.
Proof.
  revert y. induction x as [| c x IH]; intros [| c' y] H.
  - reflexivity.
  - apply (f_equal String.length) in H.
    rewrite append_empty_l, append_cons in H. cbn [String.length] in H.
    rewrite length_append in H. lia.
  - apply (f_equal String.length) in H.
    rewrite append_empty_l, append_cons in H. cbn [String.length] in H.
    rewrite length_append in H. lia.
  - rewrite !append_cons in H. injection H as -> H. f_equal. now apply IH.
Qed.

Lemma split_filename_nosep (f : string) :
  Path.occurs Path.sep f = false ->
  Path.split_filename f = (EmptyString, f).
Proof.
  induction f as [| c rest IH]; [reflexivity |].
  cbn [Path.occurs]. intros H. apply orb_false_elim in H as [Hc Hrest].
  rewrite split_filename_cons, (IH Hrest), Ascii.eqb_sym, Hc. reflexivity.
Qed.

Lemma split_filename_join (d f : string) :
  Path.split_filename d = (d, EmptyString) ->
  Path.occurs Path.sep f = false ->
  Path.split_filename (d +:+ f) = (d, f).
Proof.
  intros Hd Hf. induction d as [| c d1 IH].
  - rewrite append_empty_l. now apply split_filename_nosep.
  - rewrite split_filename_cons in Hd. rewrite append_cons, split_filename_cons.
    destruct (Path.split_filename d1) as [d0 f0] eqn:Hd1.
    destruct d0 as [| a d0'].
    + destruct (Ascii.eqb c Path.sep) eqn:Hc; [| discriminate].
      injection Hd as H1 H2. subst d1 f0.
      rewrite append_empty_l, (split_filename_nosep f Hf). reflexivity.
    + injection Hd as H1 H2. subst d1 f0. rewrite (IH eq_refl). reflexivity.
Qed.

Lemma split_outpath (p : string) :
  Path.split_filename (outpath p) =
  (Path.remove_filename p, Path.stem p +:+ "-boosted" +:+ Path.extension p).
Proof.
  rewrite outpath_concat.
  destruct (filename_decompose p) as (_ & Hs & He & Hdir).
  apply split_filename_join.
  - unfold Path.has_filename, Path.filename in Hdir.
    pose proof (split_filename_spec (Path.remove_filename p)) as Hspec.
    destruct (Path.split_filename (Path.remove_filename p)) as [d f] eqn:Hsplit.
    destruct (Hspec d f eq_refl) as (Happ & _ & _).
    cbn [snd] in Hdir. destruct f; [| discriminate].
    rewrite append_empty_r in Happ. now subst d.
  - rewrite !occurs_append, Hs, He. reflexivity.
Qed.

Lemma split_dot_cons (c : ascii) (rest : string) :
  Path.split_dot (String c rest) =
  let '(s, e) := Path.split_dot rest in
  match e with
  | String _ _ => (String c s, e)
  | EmptyString =>
      if Ascii.eqb c Path.dot then (EmptyString, String c s)
      else (String c s, EmptyString)
  end.
Proof. reflexivity. Qed.

Lemma split_dot_nodot (x : string) :
  Path.occurs Path.dot x = false -> Path.split_dot x = (x, EmptyString).
Proof.
  induction x as [| c x IH]; [reflexivity |].
  cbn [Path.occurs]. intros H. apply orb_false_elim in H as [Hc Hx].
  rewrite split_dot_cons, (IH Hx), Ascii.eqb_sym, Hc. reflexivity.
Qed.

Lemma split_dot_join (x e' : string) :
  Path.occurs Path.dot e' = false ->
  Path.split_dot (x +:+ String Path.dot e') = (x, String Path.dot e').
Proof.
  intros He. induction x as [| c x IH].
  - rewrite append_empty_l, split_dot_cons, (split_dot_nodot e' He).
    reflexivity.
  - rewrite append_cons, split_dot_cons, IH. reflexivity.
Qed.

Lemma marked_not_dots (s e : string) :
  String.eqb (s +:+ "-boosted" +:+ e) "."
  || String.eqb (s +:+ "-boosted" +:+ e) ".." = false.
Proof.
  rewrite !eqb_length_neq; [reflexivity | |];
    rewrite !length_append; cbn [String.length]; lia.
Qed.

Lemma stem_extension_marked (f : string) :
  f <> ".." ->
  Path.stem_extension
    (fst (Path.stem_extension f) +:+ "-boosted" +:+ snd (Path.stem_extension f)) =
  (fst (Path.stem_extension f) +:+ "-boosted", snd (Path.stem_extension f)).
Proof.
  intros Hf. unfold Path.stem_extension at 2 3 4 5.
  destruct (String.eqb f ".") eqn:H1.
  { apply String.eqb_eq in H1. subst f. reflexivity. }
  destruct (String.eqb f "..") eqn:H2.
  { apply String.eqb_eq in H2. contradiction. }
  cbn [orb].
  destruct (Path.split_dot f) as [s0 e0] eqn:Hsplit.
  destruct (split_dot_spec f s0 e0 Hsplit) as (Happ & Hext & Hnone).
  destruct s0 as [| a s'].
  - cbn [fst snd]. rewrite append_empty_r.
    rewrite append_empty_l in Happ. subst e0.
    destruct Hext as [-> | (e' & -> & He')]; [reflexivity |].
    unfold Path.stem_extension.
    pose proof (marked_not_dots (String Path.dot e') EmptyString) as Hnd.
    rewrite append_empty_r in Hnd. rewrite Hnd.
    rewrite append_cons, split_dot_cons, split_dot_nodot.
    + rewrite Ascii.eqb_refl. reflexivity.
    + rewrite occurs_append, He'. reflexivity.
  - cbn [fst snd]. unfold Path.stem_extension. rewrite marked_not_dots.
    destruct Hext as [-> | (e' & -> & He')].
    + specialize (Hnone eq_refl). rewrite append_empty_r in Happ. subst f.
      rewrite append_empty_r, split_dot_nodot.
      * rewrite append_cons. reflexivity.
      * rewrite occurs_append, Hnone. reflexivity.
    + rewrite <- append_assoc, split_dot_join by exact He'.
      rewrite append_cons. reflexivity.
Qed.

(** X1: the output path is the input path with eight characters more, so
    it is never the input path: the program cannot write over the file it
    reads. *)
Theorem outpath_longer (p : string) :
  String.length (outpath p) = String.length p + 8 /\ outpath p <> p.
Proof.
  assert (Hlen : String.length (outpath p) = String.length p + 8).
  { destruct (filename_decompose p) as (Hp & _).
    rewrite outpath_concat. rewrite Hp at 4.
    rewrite !length_append. cbn [String.length]. lia. }
  split; [exact Hlen |].
  intros Heq. rewrite Heq in Hlen. lia.
Qed.

(** X2: the output file lies in the directory of the input file: the two
    paths have the same part before the filename, the filename of the
    output is stem, "-boosted" and extension of the input, and it is never
    empty, also when the input path names a directory. *)
Theorem outpath_same_directory (p : string) :
  Path.remove_filename (outpath p) = Path.remove_filename p /\
  Path.filename (outpath p) =
    Path.stem p +:+ "-boosted" +:+ Path.extension p /\
  Path.has_filename (outpath p) = true.
Proof.
  unfold Path.remove_filename at 1, Path.has_filename, Path.filename.
  rewrite split_outpath. cbn [fst snd].
  repeat split. destruct (Path.stem p); reflexivity.
Qed.

(** X3: unless the filename of the input is dot-dot, the output path has
    the extension of the input path, and its stem is the stem of the input
    followed by "-boosted". *)
Theorem outpath_keeps_extension (p : string) :
  Path.filename p <> ".." ->
  Path.extension (outpath p) = Path.extension p /\
  Path.stem (outpath p) = Path.stem p +:+ "-boosted".
Proof.
  intros Hf.
  unfold Path.extension at 1, Path.stem at 1, Path.filename.
  rewrite split_outpath. cbn [snd].
  unfold Path.stem, Path.extension.
  rewrite (stem_extension_marked _ Hf). split; reflexivity.
Qed.

Lemma outpath_keeps_extension_witness :
  Path.extension (outpath "/a/b/run01.slcio") = ".slcio".
Proof.
  destruct (outpath_keeps_extension "/a/b/run01.slcio") as [Hext _].
  - vm_compute. discriminate.
  - exact Hext.
Defined.

Lemma filename_eq_path_eq (p q : string) :
  Path.remove_filename p = Path.remove_filename q ->
  Path.filename p = Path.filename q ->
  p = q.
Proof.
  unfold Path.remove_filename, Path.filename.
  destruct (Path.split_filename p) as [d f] eqn:Hp.
  destruct (Path.split_filename q) as [d' f'] eqn:Hq.
  cbn [fst snd]. intros -> ->.
  destruct (split_filename_spec p d' f' Hp) as (-> & _).
  destruct (split_filename_spec q d' f' Hq) as (-> & _).
  reflexivity.
Qed.

Lemma marked_filename_injective (f g : string) :
  fst (Path.stem_extension f) +:+ "-boosted" +:+ snd (Path.stem_extension f) =
  fst (Path.stem_extension g) +:+ "-boosted" +:+ snd (Path.stem_extension g) ->
  f = g.
Proof.
  intros H.
  assert (Hdd : forall h : string,
    h <> ".." ->
    fst (Path.stem_extension h) +:+ "-boosted" +:+ snd (Path.stem_extension h)
      <> "..-boosted").
  { intros h Hh Heq.
    pose proof (stem_extension_marked h Hh) as Hm. rewrite Heq in Hm.
    apply (f_equal fst) in Hm. cbn [fst] in Hm.
    apply (f_equal String.length) in Hm. rewrite length_append in Hm.
    change (String.length (fst (Path.stem_extension "..-boosted"))) with 1 in Hm.
    cbn [String.length] in Hm. lia. }
  destruct (String.eqb f "..") eqn:Hf; destruct (String.eqb g "..") eqn:Hg.
  - apply String.eqb_eq in Hf, Hg. congruence.
  - apply String.eqb_eq in Hf. apply String.eqb_neq in Hg. subst f.
    exfalso. apply (Hdd g Hg). symmetry. exact H.
  - apply String.eqb_eq in Hg. apply String.eqb_neq in Hf. subst g.
    exfalso. apply (Hdd f Hf). exact H.
  - apply String.eqb_neq in Hf, Hg.
    pose proof (stem_extension_marked f Hf) as Hmf.
    pose proof (stem_extension_marked g Hg) as Hmg.
    rewrite H, Hmg in Hmf. injection Hmf as Hs He.
    apply append_cancel_r in Hs.
    destruct (stem_extension_spec f) as (-> & _).
    destruct (stem_extension_spec g) as (-> & _).
    now rewrite <- Hs, <- He.
Qed.

Lemma outpath_inj (p q : string) : outpath p = outpath q -> p = q.
Proof.
  intros Heq.
  pose proof (split_outpath p) as Hp. pose proof (split_outpath q) as Hq.
  rewrite Heq, Hq in Hp. injection Hp as Hd Hn.
  apply filename_eq_path_eq; [congruence |].
  apply marked_filename_injective. symmetry. exact Hn.
Qed.

(** X4: two different input paths never share an output path. *)
Theorem outpath_injective (p q : string) :
  p <> q -> outpath p <> outpath q.
Proof. intros Hne Heq. apply Hne, outpath_inj, Heq. Qed.

Lemma outpath_injective_witness :
  outpath "run01.slcio" <> outpath "run02.slcio".
Proof.
  apply (outpath_injective "run01.slcio" "run02.slcio"). discriminate.
Defined.

Example outpath_dotdot :
  outpath "a/.." = "a/..-boosted" /\
  Path.extension (outpath "a/..") = ".-boosted".
Proof. split; reflexivity. Qed.

End OutputPathMore.

(** ** More on what getBoosted returns *)

Section GetBoostedMore.
Local Open Scope R_scope.

Lemma value_getBoosted (lv : PxPyPzEVector) (w : World) :
  statics_ok (statics w) ->
  value (getBoosted lv w) = Some (GenVector.apply computeBoost lv).
Proof. intros Hok. now rewrite (getBoosted_ok lv w Hok). Qed.

Lemma apply_computeBoost_add (a b : PxPyPzEVector) :
  GenVector.apply computeBoost (add a b) =
  add (GenVector.apply computeBoost a) (GenVector.apply computeBoost b).
Proof.
  rewrite !apply_computeBoost. unfold add; cbn [Px Py Pz E].
  f_equal; ring.
Qed.

Lemma forward_after_computeBoost (lv : PxPyPzEVector) :
  GenVector.apply (Boost_of (BoostToCM beamSum))
    (GenVector.apply computeBoost lv) = lv.
Proof.
  rewrite apply_forward, apply_computeBoost; cbn [Px Py Pz E].
  pose proof gammaCM_sqr as Hs.
  set (g := gammaCM) in *. set (b := betaCM) in *.
  destruct lv as [x y z t]; cbn [Px Py Pz E]. f_equal.
  - replace (g * (g * z + g * b * t) - g * b * (g * b * z + g * t))
      with (g * g * (1 - b * b) * z) by ring.
    rewrite Hs. ring.
  - replace (g * (g * b * z + g * t) - g * b * (g * z + g * b * t))
      with (g * g * (1 - b * b) * t) by ring.
    rewrite Hs. ring.
Qed.

Lemma computeBoost_after_forward (lv : PxPyPzEVector) :
  GenVector.apply computeBoost
    (GenVector.apply (Boost_of (BoostToCM beamSum)) lv) = lv.
Proof.
  rewrite apply_computeBoost, apply_forward; cbn [Px Py Pz E].
  pose proof gammaCM_sqr as Hs.
  set (g := gammaCM) in *. set (b := betaCM) in *.
  destruct lv as [x y z t]; cbn [Px Py Pz E]. f_equal.
  - replace (g * (g * z - g * b * t) + g * b * (g * t - g * b * z))
      with (g * g * (1 - b * b) * z) by ring.
    rewrite Hs. ring.
  - replace (g * b * (g * z - g * b * t) + g * (g * t - g * b * z))
      with (g * g * (1 - b * b) * t) by ring.
    rewrite Hs. ring.
Qed.

(** X5: [getBoosted] is additive: the result for the sum of two
    four-momenta is the sum of the two results, so the pair has the
    invariant mass after the boost that it had before. *)
Theorem getBoosted_additive (a b : PxPyPzEVector) (w : World) :
  statics_ok (statics w) ->
  exists ra rb,
    value (getBoosted a w) = Some ra /\
    value (getBoosted b w) = Some rb /\
    value (getBoosted (add a b) w) = Some (add ra rb) /\
    M2 (add ra rb) = M2 (add a b).
Proof.
  intros Hok. rewrite !(value_getBoosted _ w Hok).
  eexists _, _. split; [reflexivity |]. split; [reflexivity |].
  rewrite <- apply_computeBoost_add. split; [reflexivity |].
  apply M2_computeBoost.
Qed.

Lemma getBoosted_additive_witness :
  exists ra rb,
    value (getBoosted (mkLV 1 0 2 3) (start ∅)) = Some ra /\
    value (getBoosted (mkLV 0 1 (-2) 3) (start ∅)) = Some rb /\
    M2 (add ra rb) = 34.
Proof.
  destruct (getBoosted_additive (mkLV 1 0 2 3) (mkLV 0 1 (-2) 3) (start ∅))
    as (ra & rb & Ha & Hb & _ & Hm).
  - left; reflexivity.
  - exists ra, rb. split; [exact Ha |]. split; [exact Hb |].
    rewrite Hm. unfold M2, add; cbn [Px Py Pz E]. lra.
Defined.

(** X6: the boost that brings S = A + B to rest, the one line 37 inverts,
    undoes [getBoosted], and [getBoosted] undoes it: the two are inverse
    to each other on every four-momentum. *)
Theorem getBoosted_round_trip (lv : PxPyPzEVector) (w : World) :
  statics_ok (statics w) ->
  exists out,
    value (getBoosted lv w) = Some out /\
    GenVector.apply
      (Boost_of (BoostToCM (add (mkLV 0 0 500 500) (mkLV 0 0 (-31.3) 31.3))))
      out = lv /\
    value (getBoosted
             (GenVector.apply
                (Boost_of (BoostToCM
                   (add (mkLV 0 0 500 500) (mkLV 0 0 (-31.3) 31.3)))) lv) w)
      = Some lv.
Proof.
  intros Hok. rewrite !(value_getBoosted _ w Hok).
  change (add (mkLV 0 0 500 500) (mkLV 0 0 (-31.3) 31.3)) with beamSum.
  eexists. split; [reflexivity |].
  rewrite forward_after_computeBoost, computeBoost_after_forward.
  split; reflexivity.
Qed.

Lemma getBoosted_round_trip_witness :
  exists out,
    value (getBoosted (mkLV 0 0 100 100.5) (start ∅)) = Some out /\
    GenVector.apply (Boost_of (BoostToCM beamSum)) out = mkLV 0 0 100 100.5.
Proof.
  destruct (getBoosted_round_trip (mkLV 0 0 100 100.5) (start ∅))
    as (out & Hrun & Hback & _).
  - left; reflexivity.
  - exists out. split; [exact Hrun | exact Hback].
Defined.

(** X7: for a four-momentum with E ≥ 0 and E² − |p|² ≥ 0 the result of
    [getBoosted] has a non-negative energy and a pz that is not smaller;
    when E > 0 the energy is positive and pz is strictly larger: the
    boost pushes every particle towards +z. *)
Theorem getBoosted_forward (lv : PxPyPzEVector) (w : World) :
  statics_ok (statics w) ->
  0 <= M2 lv ->
  0 <= E lv ->
  exists out,
    value (getBoosted lv w) = Some out /\
    0 <= E out /\
    Pz lv <= Pz out /\
    (0 < E lv -> 0 < E out /\ Pz lv < Pz out).
Proof.
  intros Hok Hm He. rewrite (value_getBoosted _ w Hok).
  eexists. split; [reflexivity |].
  rewrite apply_computeBoost; cbn [Px Py Pz E].
  pose proof gammaCM_bounds as [Hg1 Hg2].
  unfold M2 in Hm. unfold betaCM.
  set (g := gammaCM) in *.
  destruct lv as [x y z t]; cbn [Px Py Pz E] in *.
  assert (Hz : z * z <= t * t) by nra.
  assert (Hp : 0 <= t + z) by nra.
  assert (Hn : 0 <= t - z) by nra.
  assert (HE : g * (4687 / 5313) * z + g * t =
               g * (5000 / 5313 * (t + z) + 313 / 5313 * (t - z))) by lra.
  assert (HZ : g * z + g * (4687 / 5313) * t - z =
               (g - 1) * (z + t) + (1 - g * (626 / 5313)) * t) by lra.
  assert (Hk : 0 < 1 - g * (626 / 5313)) by lra.
  split; [rewrite HE; apply Rmult_le_pos; lra |].
  split.
  - assert (0 <= (g - 1) * (z + t)) by (apply Rmult_le_pos; lra).
    assert (0 <= (1 - g * (626 / 5313)) * t) by (apply Rmult_le_pos; lra).
    lra.
  - intros Ht. split.
    + rewrite HE. apply Rmult_lt_0_compat; lra.
    + assert (0 <= (g - 1) * (z + t)) by (apply Rmult_le_pos; lra).
      assert (0 < (1 - g * (626 / 5313)) * t) by (apply Rmult_lt_0_compat; lra).
      lra.
Qed.

Lemma getBoosted_forward_witness :
  exists out,
    value (getBoosted (mkLV 3 4 (-12) 14) (start ∅)) = Some out /\
    0 < E out /\ -12 < Pz out.
Proof.
  destruct (getBoosted_forward (mkLV 3 4 (-12) 14) (start ∅))
    as (out & Hrun & _ & _ & Hpos).
  - left; reflexivity.
  - unfold M2; cbn [Px Py Pz E]; lra.
  - cbn [E]; lra.
  - exists out. split; [exact Hrun |]. apply Hpos. cbn [E]; lra.
Defined.

End GetBoostedMore.

(** ** More on boostFile *)

Section FilesMore.

Local Ltac step_perform :=
  match goal with
  | |- context [bind (perform ?a) ?k ?x] =>
      rewrite (bind_perform a k x); cbv beta
  end.

Lemma writeEvent_run (lcWriter : LCWriter) (evt : LCEvent) (w : World) :
  writeEvent lcWriter evt w =
  Returned tt
    (with_files (log w (WriteEvent (wr_path lcWriter)))
       (<[wr_path lcWriter :=
            default [] (files w !! wr_path lcWriter) ++ [evt]]> (files w))).
Proof. reflexivity. Qed.

Lemma eventLoop_run (lcReader : string) (lcWriter : LCWriter)
    (pending : list LCEvent) :
  forall (nEvtRead : nat) (w : World) (written : list LCEvent),
    statics_ok (statics w) ->
    files w !! wr_path lcWriter = Some written ->
    exists s',
      statics_ok s' /\
      eventLoop lcReader lcWriter pending nEvtRead w =
      Returned tt
        (mkWorld s'
           (<[wr_path lcWriter := written ++ (boostedEvent <$> pending)]> (files w))
           (trace w ++
            eventTrace lcReader (wr_path lcWriter) (length pending) nEvtRead)).
Proof.
  induction pending as [| evt rest IH]; intros nEvtRead w written Hok Hout.
  - exists (statics w). split; [exact Hok |].
    cbn [eventLoop fmap list_fmap length eventTrace].
    rewrite app_nil_r, (insert_id _ _ _ Hout). reflexivity.
  - destruct (boostEvent_spec evt (log (log w (ReadEvent lcReader))
                (Print ("Event " +:+ pretty nEvtRead +:+ endl))))
      as (s1 & Hs1 & Hrun); [exact Hok |].
    destruct (IH (S nEvtRead)
                (with_files
                   (log (with_statics
                           (log (log w (ReadEvent lcReader))
                              (Print ("Event " +:+ pretty nEvtRead +:+ endl)))
                           s1)
                      (WriteEvent (wr_path lcWriter)))
                   (<[wr_path lcWriter := written ++ [boostedEvent evt]]> (files w)))
                (written ++ [boostedEvent evt]))
      as (s' & Hs' & Hloop).
    { exact Hs1. }
    { cbn [files with_files]. apply lookup_insert_eq. }
    exists s'. split; [exact Hs' |].
    etransitivity; [| etransitivity; [exact Hloop |]].
    + cbn [eventLoop]. step_perform. unfold cout. step_perform.
      rewrite (bind_Returned _ _ _ _ _ Hrun).
      rewrite (bind_Returned _ _ _ _ _ (writeEvent_run _ _ _)).
      cbn [files with_statics log with_files statics trace]. rewrite Hout.
      reflexivity.
    + cbn [files with_statics log with_files statics trace].
      do 2 f_equal.
      * rewrite insert_insert_eq, fmap_cons, <- app_assoc. reflexivity.
      * cbn [length eventTrace]. rewrite <- !app_assoc. reflexivity.
Qed.

Lemma boostFile_run (fname : string) (w : World) (evts : list LCEvent) :
  statics_ok (statics w) ->
  files w !! fname = Some evts ->
  files w !! outpath fname = None ->
  exists s',
    statics_ok s' /\
    boostFile fname w =
    Returned tt
      (mkWorld s'
         (<[outpath fname := boostedEvent <$> evts]> (files w))
         (trace w ++ fileTrace fname (length evts))).
Proof.
  intros Hok Hin Hout.
  destruct (eventLoop_run fname (mkWriter (outpath fname)) evts 0
              (with_files
                 (log (log (log (log w (OpenRead fname))
                              (Print ("N events: " +:+ pretty (length evts) +:+ endl)))
                         (Print ("Will write: " +:+ outpath fname +:+ endl)))
                    (OpenWrite (outpath fname)))
                 (<[outpath fname := []]> (files w)))
              [])
    as (s' & Hs' & Hloop).
  { exact Hok. }
  { cbn [files with_files wr_path]. apply lookup_insert_eq. }
  exists s'. split; [exact Hs' |].
  unfold boostFile.
  rewrite (bind_Returned _ _ _ _ _ (LCReader_open_found _ _ _ Hin)).
  unfold cout. rewrite !bind_perform.
  match goal with |- context [bind (LCWriter_open_new ?p) _ ?w1] =>
    rewrite (bind_Returned _ _ w1 _ _ (LCWriter_open_new_fresh p w1 Hout))
  end.
  cbn [rd_path rd_pending getNumberOfEvents rd_count].
  cbn [files with_files wr_path trace log with_statics statics] in Hloop |- *.
  rewrite Hloop.
  do 2 f_equal.
  - rewrite insert_insert_eq. reflexivity.
  - unfold fileTrace. rewrite <- !app_assoc. reflexivity.
Qed.

Lemma boostFile_missing (fname : string) (w : World) :
  files w !! fname = None ->
  boostFile fname w = Threw (IOException fname) (log w (OpenRead fname)).
Proof.
  intros Hin. unfold boostFile. apply bind_Threw, LCReader_open_missing, Hin.
Qed.

(** X8: when the input file cannot be opened, [boostFile] ends with the
    exception of the reader right after the attempt: nothing is printed,
    no output file is opened or created, and the static objects are not
    touched. *)
Theorem boostFile_missing_input (fname : string) (w : World) :
  files w !! fname = None ->
  boostFile fname w = Threw (IOException fname) (log w (OpenRead fname)) /\
  files (final (boostFile fname w)) = files w /\
  statics (final (boostFile fname w)) = statics w /\
  trace (final (boostFile fname w)) = trace w ++ [OpenRead fname].
Proof.
  intros Hin. rewrite (boostFile_missing fname w Hin). repeat split.
Qed.

Lemma boostFile_missing_input_witness :
  boostFile "nowhere.slcio" (start ∅) =
  Threw (IOException "nowhere.slcio") (log (start ∅) (OpenRead "nowhere.slcio")).
Proof.
  destruct (boostFile_missing_input "nowhere.slcio" (start ∅)) as (Hrun & _).
  - reflexivity.
  - exact Hrun.
Defined.

(** X9: when the input file is there and the output file is not,
    [boostFile] returns; the output file then holds as many events as the
    input file, in the same order, each with its particles boosted; the
    input file and every other file are as they were. *)
Theorem boostFile_writes_boosted_events (fname : string) (w : World)
    (evts : list LCEvent) :
  statics_ok (statics w) ->
  files w !! fname = Some evts ->
  files w !! outpath fname = None ->
  exists w',
    boostFile fname w = Returned tt w' /\
    files w' !! outpath fname = Some (boostedEvent <$> evts) /\
    files w' !! fname = Some evts /\
    (forall other, other <> outpath fname -> files w' !! other = files w !! other).
Proof.
  intros Hok Hin Hout.
  destruct (boostFile_run fname w evts Hok Hin Hout) as (s' & _ & Hrun).
  eexists. split; [exact Hrun |]. cbn [files].
  split; [apply lookup_insert_eq |].
  assert (Hfresh : forall other, other <> outpath fname ->
            <[outpath fname := boostedEvent <$> evts]> (files w) !! other
            = files w !! other).
  { intros other Hne. apply lookup_insert_ne. congruence. }
  split; [| exact Hfresh].
  rewrite Hfresh; [exact Hin |]. intros Heq. rewrite Heq in Hin. congruence.
Qed.

Lemma boostFile_writes_boosted_events_witness :
  exists w',
    boostFile "run01.slcio"
      (start {[ "run01.slcio" :=
                [mkLCEvent [mkMCParticle (0, 0, 100)%R 100.5%R 11 (0, 0, 0)%R [] []] ∅] ]})
      = Returned tt w' /\
    length <$> (files w' !! "run01-boosted.slcio") = Some 1.
Proof.
  destruct (boostFile_writes_boosted_events "run01.slcio"
    (start {[ "run01.slcio" :=
              [mkLCEvent [mkMCParticle (0, 0, 100)%R 100.5%R 11 (0, 0, 0)%R [] []] ∅] ]})
    [mkLCEvent [mkMCParticle (0, 0, 100)%R 100.5%R 11 (0, 0, 0)%R [] []] ∅])
    as (w' & Hrun & Hout & _).
  - left; reflexivity.
  - reflexivity.
  - reflexivity.
  - exists w'. split; [exact Hrun |].
    change "run01-boosted.slcio" with (outpath "run01.slcio").
    rewrite Hout. reflexivity.
Defined.

Lemma eventTrace_reads_writes (lcReader out : string) (n : nat) :
  forall first,
    event_reads (eventTrace lcReader out n first) = replicate (S n) lcReader /\
    event_writes (eventTrace lcReader out n first) = replicate n out.
Proof.
  induction n as [| n IH]; intros first; [split; reflexivity |].
  destruct (IH (S first)) as [Hr Hw].
  split.
  - change (event_reads (eventTrace lcReader out (S n) first))
      with (lcReader :: event_reads (eventTrace lcReader out n (S first))).
    now rewrite Hr.
  - change (event_writes (eventTrace lcReader out (S n) first))
      with (out :: event_writes (eventTrace lcReader out n (S first))).
    now rewrite Hw.
Qed.

(** X10: the I/O actions of a run of [boostFile] that does not fail, in
    order: the input is opened, the two lines are printed, the output is
    opened, then each event is read, announced with its index counted
    from 0 and written, and a last read finds no event. For n events
    there are n + 1 reads from the input and n writes to the output. *)
Theorem boostFile_actions (fname : string) (w : World) (evts : list LCEvent) :
  statics_ok (statics w) ->
  files w !! fname = Some evts ->
  files w !! outpath fname = None ->
  trace (final (boostFile fname w)) =
    trace w ++
    [OpenRead fname;
     Print ("N events: " +:+ pretty (length evts) +:+ endl);
     Print ("Will write: " +:+ outpath fname +:+ endl);
     OpenWrite (outpath fname)] ++
    eventTrace fname (outpath fname) (length evts) 0 /\
  event_reads (eventTrace fname (outpath fname) (length evts) 0)
    = replicate (S (length evts)) fname /\
  event_writes (eventTrace fname (outpath fname) (length evts) 0)
    = replicate (length evts) (outpath fname).
Proof.
  intros Hok Hin Hout.
  destruct (boostFile_run fname w evts Hok Hin Hout) as (s' & _ & Hrun).
  rewrite Hrun. cbn [final trace]. split; [reflexivity |].
  apply eventTrace_reads_writes.
Qed.

Lemma boostFile_actions_witness :
  trace (final (boostFile "run01.slcio"
                  (start {[ "run01.slcio" := [mkLCEvent [] ∅; mkLCEvent [] ∅] ]})))
  = [OpenRead "run01.slcio";
     Print ("N events: 2" +:+ endl);
     Print ("Will write: run01-boosted.slcio" +:+ endl);
     OpenWrite "run01-boosted.slcio";
     ReadEvent "run01.slcio"; Print ("Event 0" +:+ endl);
     WriteEvent "run01-boosted.slcio";
     ReadEvent "run01.slcio"; Print ("Event 1" +:+ endl);
     WriteEvent "run01-boosted.slcio";
     ReadEvent "run01.slcio"].
Proof.
  destruct (boostFile_actions "run01.slcio"
    (start {[ "run01.slcio" := [mkLCEvent [] ∅; mkLCEvent [] ∅] ]})
    [mkLCEvent [] ∅; mkLCEvent [] ∅]) as (Htrace & _).
  - left; reflexivity.
  - reflexivity.
  - reflexivity.
  - rewrite Htrace. reflexivity.
Defined.

Lemma boostEvent_no_particles (evt : LCEvent) (w : World) :
  MCParticle evt = [] -> boostEvent evt w = Returned evt w.
Proof.
  destruct evt as [col other]. cbn [MCParticle]. intros ->. reflexivity.
Qed.

Lemma eventLoop_no_particles (lcReader : string) (lcWriter : LCWriter)
    (pending : list LCEvent) :
  Forall (fun evt => MCParticle evt = []) pending ->
  forall (nEvtRead : nat) (w : World) (written : list LCEvent),
    files w !! wr_path lcWriter = Some written ->
    eventLoop lcReader lcWriter pending nEvtRead w =
    Returned tt
      (mkWorld (statics w)
         (<[wr_path lcWriter := written ++ pending]> (files w))
         (trace w ++
          eventTrace lcReader (wr_path lcWriter) (length pending) nEvtRead)).
Proof.
  induction 1 as [| evt rest Hevt _ IH]; intros nEvtRead w written Hout.
  - cbn [eventLoop length eventTrace].
    rewrite app_nil_r, (insert_id _ _ _ Hout). reflexivity.
  - etransitivity; [| etransitivity;
      [apply (IH (S nEvtRead)
                (with_files
                   (log (log (log w (ReadEvent lcReader))
                           (Print ("Event " +:+ pretty nEvtRead +:+ endl)))
                      (WriteEvent (wr_path lcWriter)))
                   (<[wr_path lcWriter := written ++ [evt]]> (files w)))
                (written ++ [evt])) |]].
    + cbn [eventLoop]. step_perform. unfold cout. step_perform.
      rewrite (bind_Returned _ _ _ _ _ (boostEvent_no_particles evt _ Hevt)).
      rewrite (bind_Returned _ _ _ _ _ (writeEvent_run _ _ _)).
      cbn [files with_statics log with_files statics trace]. rewrite Hout.
      reflexivity.
    + cbn [files with_files]. apply lookup_insert_eq.
    + cbn [files with_statics log with_files statics trace].
      do 2 f_equal.
      * rewrite insert_insert_eq, <- app_assoc. reflexivity.
      * cbn [length eventTrace]. rewrite <- !app_assoc. reflexivity.
Qed.

(** X11: the boost is set up only when a particle is met. For an input
    file whose events hold no MCParticle record, in particular a file
    without events, [boostFile] returns, the output file is a copy of the
    input file, and the static objects of [getBoosted] are as they were,
    whatever they were. *)
Theorem boostFile_without_particles (fname : string) (w : World)
    (evts : list LCEvent) :
  Forall (fun evt => MCParticle evt = []) evts ->
  files w !! fname = Some evts ->
  files w !! outpath fname = None ->
  exists w',
    boostFile fname w = Returned tt w' /\
    statics w' = statics w /\
    files w' !! outpath fname = Some evts.
Proof.
  intros Hevts Hin Hout.
  eexists. split; [| split].
  - unfold boostFile.
    rewrite (bind_Returned _ _ _ _ _ (LCReader_open_found _ _ _ Hin)).
    unfold cout. rewrite !bind_perform.
    match goal with |- context [bind (LCWriter_open_new ?p) _ ?w1] =>
      rewrite (bind_Returned _ _ w1 _ _ (LCWriter_open_new_fresh p w1 Hout))
    end.
    cbn [rd_path rd_pending getNumberOfEvents rd_count].
    apply (eventLoop_no_particles fname (mkWriter (outpath fname)) evts Hevts
             0 _ []).
    cbn [files with_files wr_path]. apply lookup_insert_eq.
  - reflexivity.
  - cbn [files wr_path]. apply lookup_insert_eq.
Qed.

Lemma boostFile_without_particles_witness :
  exists w',
    boostFile "empty.slcio" (start {[ "empty.slcio" := [] ]}) = Returned tt w' /\
    statics w' = no_statics /\
    files w' !! "empty-boosted.slcio" = Some [].
Proof.
  apply (boostFile_without_particles "empty.slcio"
           (start {[ "empty.slcio" := [] ]}) []).
  - constructor.
  - reflexivity.
  - reflexivity.
Defined.

Lemma boostFile_output_exists (fname : string) (w : World)
    (evts old : list LCEvent) :
  files w !! fname = Some evts ->
  files w !! outpath fname = Some old ->
  exists w',
    boostFile fname w = Threw (IOException (outpath fname)) w' /\
    statics w' = statics w.
Proof.
  intros Hin Hout. unfold boostFile.
  rewrite (bind_Returned _ _ _ _ _ (LCReader_open_found _ _ _ Hin)).
  unfold cout. rewrite !bind_perform.
  match goal with |- context [bind (LCWriter_open_new ?p) _ ?w1] =>
    rewrite (bind_Threw _ _ w1 _ _ (LCWriter_open_new_exists p w1 old Hout))
  end.
  eexists. split; reflexivity.
Qed.

Lemma boostFile_outcome (fname : string) (w : World) :
  statics_ok (statics w) ->
  (exists e w', boostFile fname w = Threw e w' /\ statics w' = statics w) \/
  (exists w', boostFile fname w = Returned tt w' /\ statics_ok (statics w')).
Proof.
  intros Hok.
  destruct (files w !! fname) as [evts |] eqn:Hin.
  2: { left. eexists _, _. split; [apply boostFile_missing, Hin | reflexivity]. }
  destruct (files w !! outpath fname) as [old |] eqn:Hout.
  - left. destruct (boostFile_output_exists fname w evts old Hin Hout)
      as (w' & Hrun & Hst).
    eexists _, _. split; [exact Hrun | exact Hst].
  - right. destruct (boostFile_run fname w evts Hok Hin Hout) as (s' & Hs' & Hrun).
    eexists. split; [exact Hrun | exact Hs'].
Qed.

End FilesMore.

(** ** More on main *)

Section MainMore.

Lemma fileLoop_outcome (fnames : list string) :
  forall w : World,
    statics_ok (statics w) ->
    (exists e w', fileLoop fnames w = Threw e w' /\ statics_ok (statics w')) \/
    (exists w', fileLoop fnames w = Returned tt w' /\ statics_ok (statics w')).
Proof.
  induction fnames as [| fname rest IH]; intros w Hok.
  - right. exists w. split; [reflexivity | exact Hok].
  - cbn [fileLoop].
    destruct (boostFile_outcome fname w Hok)
      as [(e & w1 & Hrun & Hst) | (w1 & Hrun & Hok1)].
    + left. exists e, w1. split; [apply bind_Threw, Hrun |].
      rewrite Hst. exact Hok.
    + rewrite (bind_Returned _ _ _ _ _ Hrun). apply IH, Hok1.
Qed.

Lemma main_with_arguments (argv : list string) (w : World) :
  2 <= length argv ->
  main argv w = bind (fileLoop (drop 1 argv)) (fun _ => ret 0%Z) w.
Proof.
  intros Hargc. unfold main.
  destruct (length argv <? 2) eqn:Hlt; [apply Nat.ltb_lt in Hlt; lia |].
  reflexivity.
Qed.

Lemma fileLoop_stops (pre : list string) (w w1 : World) :
  Processed pre w w1 ->
  forall fname post e w2,
    boostFile fname w1 = Threw e w2 ->
    fileLoop (pre ++ fname :: post) w = Threw e w2.
Proof.
  induction 1 as [w | f rest w w0 w1 Hfile _ IH]; intros fname post e w2 Hfail.
  - cbn [app fileLoop]. apply bind_Threw, Hfail.
  - cbn [app fileLoop]. rewrite (bind_Returned _ _ _ _ _ Hfile).
    apply IH, Hfail.
Qed.

(** X12: however a run of [main] ends, and whatever the arguments and
    the files, the static objects of [getBoosted] are then either all
    unset or hold A, B, their sum and the transform [computeBoost]: once
    set, the transform is the same for every file of the run. *)
Theorem main_keeps_statics (argv : list string)
    (fs : gmap string (list LCEvent)) :
  statics_ok (statics (final (main argv (start fs)))).
Proof.
  unfold main. destruct (length argv <? 2).
  - left. reflexivity.
  - destruct (fileLoop_outcome (drop 1 argv) (start fs) (statics_ok_start fs))
      as [(e & w' & Hrun & Hok) | (w' & Hrun & Hok)].
    + rewrite (bind_Threw _ _ _ _ _ Hrun). exact Hok.
    + rewrite (bind_Returned _ _ _ _ _ Hrun). exact Hok.
Qed.

(** X13: no failure is caught. When the files before some argument are
    processed and [boostFile] fails on that argument, [main] ends with
    that exception in the state the failure left: the process has no
    exit status from [main], the arguments after it are never looked at,
    and what the earlier files wrote stays. *)
Theorem main_stops_at_failure (prog : string) (pre post : list string)
    (fname : string) (w w1 w2 : World) (e : Exception) :
  Processed pre w w1 ->
  boostFile fname w1 = Threw e w2 ->
  main (prog :: pre ++ fname :: post) w = Threw e w2 /\
  exit_status (main (prog :: pre ++ fname :: post) w) = None /\
  forall post', main (prog :: pre ++ fname :: post') w = Threw e w2.
Proof.
  intros Hpre Hfail.
  assert (Hmain : forall post', main (prog :: pre ++ fname :: post') w = Threw e w2).
  { intros post'. rewrite main_with_arguments.
    - cbn [drop]. apply bind_Threw. apply (fileLoop_stops pre w w1 Hpre), Hfail.
    - cbn [length]. rewrite length_app. cbn [length]. lia. }
  split; [apply Hmain |]. split; [| exact Hmain].
  rewrite Hmain. reflexivity.
Qed.

Lemma main_stops_at_failure_witness :
  main ["boostLCIO"; "empty.slcio"; "nowhere.slcio"; "later.slcio"]
    (start {[ "empty.slcio" := [] ]})
  = Threw (IOException "nowhere.slcio")
      (log (final (boostFile "empty.slcio" (start {[ "empty.slcio" := [] ]})))
         (OpenRead "nowhere.slcio")).
Proof.
  apply (main_stops_at_failure "boostLCIO" ["empty.slcio"] ["later.slcio"]
           "nowhere.slcio" (start {[ "empty.slcio" := [] ]})
           (final (boostFile "empty.slcio" (start {[ "empty.slcio" := [] ]})))).
  - eapply Processed_cons; [reflexivity | apply Processed_nil].
  - reflexivity.
Defined.

(** X14: with at least one argument the process never ends through
    [exit] and [main] never returns a status other than 0: either every
    file is processed and the status is 0, or an exception ends the run. *)
Theorem main_status_zero_or_exception (argv : list string) (w : World) :
  statics_ok (statics w) ->
  2 <= length argv ->
  (exists w', main argv w = Returned 0%Z w' /\ Processed (drop 1 argv) w w') \/
  (exists e w', main argv w = Threw e w').
Proof.
  intros Hok Hargc. rewrite (main_with_arguments argv w Hargc).
  destruct (fileLoop_outcome (drop 1 argv) w Hok)
    as [(e & w' & Hrun & _) | (w' & Hrun & _)].
  - right. exists e, w'. apply bind_Threw, Hrun.
  - left. exists w'. split.
    + rewrite (bind_Returned _ _ _ _ _ Hrun). reflexivity.
    + apply Processed_fileLoop, Hrun.
Qed.

Lemma main_status_zero_or_exception_witness :
  (exists w', main ["boostLCIO"; "nowhere.slcio"] (start ∅) = Returned 0%Z w' /\
              Processed ["nowhere.slcio"] (start ∅) w') \/
  (exists e w', main ["boostLCIO"; "nowhere.slcio"] (start ∅) = Threw e w').
Proof.
  apply (main_status_zero_or_exception ["boostLCIO"; "nowhere.slcio"] (start ∅)).
  - left; reflexivity.
  - cbn [length]. lia.
Defined.

Lemma fileLoop_all (args : list string) :
  forall w : World,
    statics_ok (statics w) ->
    NoDup args ->
    (forall f, f ∈ args -> is_Some (files w !! f)) ->
    (forall f, f ∈ args -> files w !! outpath f = None) ->
    exists w',
      fileLoop args w = Returned tt w' /\
      statics_ok (statics w') /\
      (forall f, f ∈ args ->
         files w' !! outpath f = (fmap boostedEvent <$> files w !! f)) /\
      (forall g, (forall f, f ∈ args -> g <> outpath f) ->
         files w' !! g = files w !! g).
Proof.
  induction args as [| f0 rest IH]; intros w Hok Hnd Hin Hout.
  - exists w. split; [reflexivity |]. split; [exact Hok |].
    split; [intros f Hf; now apply elem_of_nil in Hf | reflexivity].
  - apply NoDup_cons in Hnd as [Hf0 Hnd].
    destruct (Hin f0) as [evts0 Hin0]; [apply elem_of_cons; auto |].
    assert (Hout0 : files w !! outpath f0 = None)
      by (apply Hout, elem_of_cons; auto).
    destruct (boostFile_run f0 w evts0 Hok Hin0 Hout0) as (s' & Hs' & Hrun).
    set (w1 := mkWorld s' (<[outpath f0 := boostedEvent <$> evts0]> (files w))
                 (trace w ++ fileTrace f0 (length evts0))) in *.
    assert (Hother : forall f, f ∈ rest -> files w1 !! f = files w !! f).
    { intros f Hf. cbn [w1 files]. apply lookup_insert_ne.
      intros Heq. destruct (Hin f) as [x Hx]; [apply elem_of_cons; auto |].
      rewrite <- Heq in Hx. congruence. }
    assert (Hdistinct : forall f, f ∈ rest -> outpath f0 <> outpath f).
    { intros f Hf Heq. apply outpath_inj in Heq. subst f. contradiction. }
    destruct (IH w1) as (w' & Hloop & Hok' & Hfiles & Hframe).
    { exact Hs'. }
    { exact Hnd. }
    { intros f Hf. rewrite (Hother f Hf). apply Hin, elem_of_cons; auto. }
    { intros f Hf. cbn [w1 files]. rewrite lookup_insert_ne by auto.
      apply Hout, elem_of_cons; auto. }
    exists w'. split.
    { cbn [fileLoop]. rewrite (bind_Returned _ _ _ _ _ Hrun). exact Hloop. }
    split; [exact Hok' |]. split.
    + intros f Hf. apply elem_of_cons in Hf as [-> | Hf].
      * rewrite Hframe by auto. cbn [w1 files].
        rewrite lookup_insert_eq, Hin0. reflexivity.
      * rewrite (Hfiles f Hf), (Hother f Hf). reflexivity.
    + intros g Hg. rewrite Hframe.
      * cbn [w1 files]. apply lookup_insert_ne.
        intros Heq. apply (Hg f0); [apply elem_of_cons; auto | congruence].
      * intros f Hf. apply Hg, elem_of_cons; auto.
Qed.

(** X15: several files in one run. When the arguments are pairwise
    different, every input file is there and none of the output files is,
    [main] returns 0; each output file then holds the boosted events of
    its input file, and every other file, the inputs among them, is as it
    was. *)
Theorem main_boosts_every_file (prog : string) (args : list string) (w : World) :
  statics_ok (statics w) ->
  args <> [] ->
  NoDup args ->
  (forall f, f ∈ args -> is_Some (files w !! f)) ->
  (forall f, f ∈ args -> files w !! outpath f = None) ->
  exists w',
    main (prog :: args) w = Returned 0%Z w' /\
    (forall f, f ∈ args ->
       files w' !! outpath f = (fmap boostedEvent <$> files w !! f)) /\
    (forall g, (forall f, f ∈ args -> g <> outpath f) ->
       files w' !! g = files w !! g).
Proof.
  intros Hok Hne Hnd Hin Hout.
  destruct (fileLoop_all args w Hok Hnd Hin Hout)
    as (w' & Hloop & _ & Hfiles & Hframe).
  exists w'. split; [| split; assumption].
  rewrite main_with_arguments.
  - cbn [drop]. rewrite (bind_Returned _ _ _ _ _ Hloop). reflexivity.
  - destruct args; [contradiction | cbn [length]; lia].
Qed.

Lemma main_boosts_every_file_witness :
  exists w',
    main ["boostLCIO"; "a.slcio"; "b.slcio"]
      (start {[ "a.slcio" := []; "b.slcio" := [mkLCEvent [] ∅] ]})
      = Returned 0%Z w' /\
    files w' !! "a-boosted.slcio" = Some [] /\
    files w' !! "b.slcio" = Some [mkLCEvent [] ∅].
Proof.
  destruct (main_boosts_every_file "boostLCIO" ["a.slcio"; "b.slcio"]
    (start {[ "a.slcio" := []; "b.slcio" := [mkLCEvent [] ∅] ]}))
    as (w' & Hrun & Hfiles & Hframe).
  - left; reflexivity.
  - discriminate.
  - apply NoDup_cons. split; [| apply NoDup_singleton].
    intros Hin. apply list_elem_of_singleton in Hin. discriminate.
  - intros f Hf. apply elem_of_cons in Hf as [-> | Hf].
    + eexists; reflexivity.
    + apply list_elem_of_singleton in Hf. subst f. eexists; reflexivity.
  - intros f Hf. apply elem_of_cons in Hf as [-> | Hf].
    + reflexivity.
    + apply list_elem_of_singleton in Hf. subst f. reflexivity.
  - exists w'. split; [exact Hrun |]. split.
    + change "a-boosted.slcio" with (outpath "a.slcio").
      rewrite Hfiles by (apply elem_of_cons; auto). reflexivity.
    + rewrite Hframe; [reflexivity |].
      intros f Hf. apply elem_of_cons in Hf as [-> | Hf].
      * discriminate.
      * apply list_elem_of_singleton in Hf. subst f. discriminate.
Defined.

End MainMore.

(** ** The beams *)

Section Beams.
Local Open Scope R_scope.

Lemma gamma_beta_restMass : gammaCM * betaCM * sqrt (M2 beamSum) = 468.7.
Proof.
  pose proof gamma_restMass as Hg.
  replace (gammaCM * betaCM * sqrt (M2 beamSum))
    with (gammaCM * sqrt (M2 beamSum) * betaCM) by ring.
  rewrite Hg. unfold betaCM. lra.
Qed.

(** X16: the two constants of lines 34 and 35 are what the transform makes
    of symmetric head-on beams: with M the invariant mass of S = A + B,
    [getBoosted] carries (0, 0, M/2, M/2) to A = (0, 0, 500, 500) and
    (0, 0, −M/2, M/2) to B = (0, 0, −31.3, 31.3). *)
Theorem getBoosted_symmetric_beams (w : World) :
  statics_ok (statics w) ->
  value (getBoosted (mkLV 0 0 (sqrt (M2 beamSum) / 2) (sqrt (M2 beamSum) / 2)) w)
    = Some (mkLV 0 0 500 500) /\
  value (getBoosted (mkLV 0 0 (- (sqrt (M2 beamSum) / 2)) (sqrt (M2 beamSum) / 2)) w)
    = Some (mkLV 0 0 (-31.3) 31.3).
Proof.
  intros Hok. rewrite !(value_getBoosted _ w Hok), !apply_computeBoost.
  cbn [Px Py Pz E].
  pose proof gamma_restMass as Hg. pose proof gamma_beta_restMass as Hb.
  set (m := sqrt (M2 beamSum)) in *.
  split; do 2 f_equal; lra.
Qed.

Lemma getBoosted_symmetric_beams_witness :
  value (getBoosted (mkLV 0 0 (sqrt (M2 beamSum) / 2) (sqrt (M2 beamSum) / 2))
           (start ∅))
  = Some (mkLV 0 0 500 500).
Proof.
  destruct (getBoosted_symmetric_beams (start ∅)) as [HA _].
  - left; reflexivity.
  - exact HA.
Defined.

End Beams.
